(** * aussie-byte: the authentication and session flow of the blog server

    A shallow embedding of [routes/auth.js] (register, login, logout) and of
    the session checks of [index.js] (the [res.locals.user] middleware and
    [requireLogin]), with the properties the specification states about them.

    The handlers are written in Node's callback style; here every callback
    chain becomes a pure function from the state it reads (users table,
    session object, session store) and from the outcomes the environment
    delivers (hasher result, store faults, random salt and token) to the new
    state and to what the handler did: the response sent (if any), the lines
    written with [console.error], and the cookies cleared. *)

From stdpp Require Import base option list gmap strings sorting.

Local Open Scope Z_scope.

(** ** Values the handlers exchange with the libraries *)

(** A Node callback [(err, value)]: either the value, or the error whose
    [message] the handlers print. *)
Inductive Result (A : Type) : Type :=
  | Ok (value : A)
  | Err (message : string).
Arguments Ok {A} value.
Arguments Err {A} message.

(** A field of [req.body] after [express.urlencoded]: [None] is JavaScript's
    [undefined] (the form did not send the field). *)
Definition Field : Type := option string.

Record Body : Type := mkBody {
  body_username : Field;
  body_password : Field
}.

(** ** The users table ([index.js], [CREATE TABLE IF NOT EXISTS users])

    [id INTEGER PRIMARY KEY AUTOINCREMENT], [username TEXT NOT NULL UNIQUE],
    [password TEXT NOT NULL]. *)
Record User : Type := mkUser {
  row_id : Z;
  row_username : string;
  row_password : string
}.

(** The table keeps its rows in insertion order; [sqlite_sequence] is the
    largest row id AUTOINCREMENT has handed out so far. *)
Record Db : Type := mkDb {
  users : list User;
  sqlite_sequence : Z
}.

Definition empty_db : Db := {| users := []; sqlite_sequence := 0 |}.

(** [WHERE username = ?]: exact, case-sensitive comparison; the first
    matching row is the one [db.get] returns. *)
Definition find_user (name : string) (rows : list User) : option User :=
  List.find (fun u => String.eqb (row_username u) name) rows.

Definition max_row_id (rows : list User) : Z :=
  fold_right (fun u m => Z.max (row_id u) m) 0 rows.

(** AUTOINCREMENT: one more than the largest id ever used. *)
Definition next_id (db : Db) : Z :=
  Z.max (sqlite_sequence db) (max_row_id (users db)) + 1.

Definition not_null_username : string :=
  "SQLITE_CONSTRAINT: NOT NULL constraint failed: users.username".
Definition unique_username : string :=
  "SQLITE_CONSTRAINT: UNIQUE constraint failed: users.username".

(** [db.run("INSERT INTO users (username, password) VALUES (?, ?)",
    [username, hash], cb)].  [fault] is a failure of the persistence layer
    itself (file locked, disk error); an [undefined] parameter is bound as
    NULL; the second component is the [err] the callback receives. *)
Definition db_run_insert (fault : option string) (db : Db)
    (username : Field) (hash : string) : Db * option string :=
  match fault with
  | Some e => (db, Some e)
  | None =>
      match username with
      | None => (db, Some not_null_username)
      | Some name =>
          match find_user name (users db) with
          | Some _ => (db, Some unique_username)
          | None =>
              let i := next_id db in
              ({| users := users db ++ [mkUser i name hash];
                  sqlite_sequence := i |}, None)
          end
      end
  end.

(** [db.get("SELECT * FROM users WHERE username = ?", [username], cb)]:
    the callback receives [err], or the row, or [undefined] when no row
    matches (comparing with NULL matches nothing). *)
Definition db_get_user (fault : option string) (db : Db)
    (username : Field) : Result (option User) :=
  match fault with
  | Some e => Err e
  | None =>
      Ok (match username with
          | Some name => find_user name (users db)
          | None => None
          end)
  end.

(** ** What a handler does *)

Inductive Locals : Type :=
  | NoLocals
  | ErrorLocal (error : option string).

Inductive Response : Type :=
  | Render (view : string) (locals : Locals)
  | Redirect (location : string).

Record Outcome : Type := mkOutcome {
  response : option Response;
  console_error : list string;
  clearCookie : list string
}.

(** The handler returned after [console.error(msg)]: nothing is sent. *)
Definition logged (msg : string) : Outcome :=
  {| response := None; console_error := [msg]; clearCookie := [] |}.

Definition respond (r : Response) : Outcome :=
  {| response := Some r; console_error := []; clearCookie := [] |}.

(** [req.session]: the object express-session attaches to the request; its
    only property the application touches is [userId] ([None] when the
    property is [undefined]). *)
Record Session : Type := mkSession {
  userId : option Z
}.

(** ** [routes/auth.js] *)

Definition invalid_credentials : Response :=
  Render "login" (ErrorLocal (Some "Invalid username or password")).

Section Handlers.

(** The [bcrypt] package is a dependency, not part of the repository: the
    handlers are verified for every behaviour of its two entry points.
    [bcrypt_hash data rounds salt] stands for [bcrypt.hash(data, rounds, cb)]
    with the salt it draws made explicit; [bcrypt_compare data digest] for
    [bcrypt.compare(data, digest, cb)]. *)
Variable bcrypt_hash : Field -> nat -> string -> Result string.
Variable bcrypt_compare : Field -> string -> Result bool.

(** [router.get('/register')] *)
Definition get_register : Outcome := respond (Render "register" NoLocals).

(** [router.post('/register')] *)
Definition post_register (salt : string) (fault : option string)
    (db : Db) (body : Body) : Db * Outcome :=
  let saltRounds := 10%nat in
  match bcrypt_hash (body_password body) saltRounds salt with
  | Err msg => (db, logged msg)
  | Ok hash =>
      match db_run_insert fault db (body_username body) hash with
      | (db', Some msg) => (db', logged msg)
      | (db', None) => (db', respond (Redirect "/login"))
      end
  end.

(** [router.get('/login')] *)
Definition get_login : Outcome :=
  respond (Render "login" (ErrorLocal None)).

(** [router.post('/login')].  The inner callback never looks at [err]:
    [if (result)] is taken only for the boolean [true]. *)
Definition post_login (fault : option string) (db : Db)
    (session : Session) (body : Body) : Session * Outcome :=
  match db_get_user fault db (body_username body) with
  | Err msg => (session, logged msg)
  | Ok None => (session, respond invalid_credentials)
  | Ok (Some user) =>
      match bcrypt_compare (body_password body) (row_password user) with
      | Ok true =>
          ({| userId := Some (row_id user) |}, respond (Redirect "/"))
      | _ => (session, respond invalid_credentials)
      end
  end.

End Handlers.

(** ** [index.js]: what the application reads from the session *)

(** JavaScript truthiness of [req.session.userId]: [undefined] and the
    number [0] are falsy. *)
Definition truthy (v : option Z) : bool :=
  match v with
  | Some n => negb (n =? 0)
  | None => false
  end.

(** [req.session && req.session.userId] *)
Definition logged_in (session : option Session) : bool :=
  match session with
  | Some s => truthy (userId s)
  | None => false
  end.

(** The middleware filling [res.locals.user]: [Some i] for [{ id: i }],
    [None] for [null]. *)
Definition locals_user (session : option Session) : option Z :=
  match session with
  | Some s => if truthy (userId s) then userId s else None
  | None => None
  end.

Inductive Middleware : Type :=
  | Next
  | Send (r : Response).

(** [requireLogin] *)
Definition requireLogin (session : option Session) : Middleware :=
  if logged_in session then Next else Send (Redirect "/login").

(** ** The Session Manager *)

(** Modelled from the spec: the session store and the middleware that
    attaches [req.session] come from the express-session package, which
    [index.js] only configures ([resave: false], [saveUninitialized: false],
    default in-process store).  Following section 4.3 the store maps an
    opaque token (the value of the [connect.sid] cookie) to the session it
    identifies; a request whose cookie is absent or unknown gets a new, empty
    session under a freshly drawn token, and that session is written to the
    store only once a handler has changed it.  The creation time the spec
    lists in the record is left out: nothing expires (sections 4.3, 5) and
    no handler reads it. *)
Definition session_lookup (store : gmap string Session)
    (cookie : option string) : option Session :=
  match cookie with
  | Some token => store !! token
  | None => None
  end.

(** Modelled from the spec: the [req.session] express-session attaches to a
    request, the stored session of its cookie or else a new empty one. *)
Definition req_session (store : gmap string Session)
    (cookie : option string) : Session :=
  default {| userId := None |} (session_lookup store cookie).

(** Modelled from the spec: the token of that session, [fresh] being the
    random token drawn in case a new session has to be started. *)
Definition req_sessionID (store : gmap string Session)
    (cookie : option string) (fresh : string) : string :=
  match cookie with
  | Some token => if store !! token is Some _ then token else fresh
  | None => fresh
  end.

(** Modelled from the spec: [create(user_id) -> token] of section 4.3,
    missing with express-session.  [token] is the random identifier drawn
    for the session; the record stored under it is the session object after
    [req.session.userId = user.id]. *)
Definition create (token : string) (user_id : Z)
    (store : gmap string Session) : gmap string Session * string :=
  (<[token := {| userId := Some user_id |}]> store, token).

(** Modelled from the spec: [resolve(token) -> user_id | None] of section
    4.3, missing with express-session: the user id recorded in the session
    stored under the token, [None] when the token is absent or unknown. *)
Definition resolve (store : gmap string Session)
    (token : option string) : option Z :=
  match session_lookup store token with
  | Some s => userId s
  | None => None
  end.

(** Modelled from the spec: [destroy(token)] of section 4.3, missing with
    express-session: removal of the token's record, whether or not there is
    one.  The only error the callback can receive is a failure [fault] of
    the store itself, in which case nothing is removed. *)
Definition destroy (fault : option string) (token : string)
    (store : gmap string Session) : gmap string Session * option string :=
  match fault with
  | Some e => (store, Some e)
  | None => (delete token store, None)
  end.

(** [n] successive [destroy] calls on the same token, with the errors
    they reported. *)
Fixpoint destroy_repeatedly (n : nat) (token : string)
    (store : gmap string Session) : gmap string Session * list (option string) :=
  match n with
  | O => (store, [])
  | S n' =>
      let '(store', err) := destroy None token store in
      let '(store'', errs) := destroy_repeatedly n' token store' in
      (store'', err :: errs)
  end.

(** [router.get('/logout')]: [req.session.destroy] removes the session of
    the request, and the callback answers according to the [err] it gets. *)
Definition get_logout (fault : option string) (sid : string)
    (store : gmap string Session) : gmap string Session * Outcome :=
  let '(store', err) := destroy fault sid store in
  match err with
  | Some _ => (store', respond (Redirect "/"))
  | None =>
      (store', {| response := Some (Redirect "/login");
                  console_error := [];
                  clearCookie := ["connect.sid"] |})
  end.

(** ** Whole requests: session middleware, handler, session write-back *)

Record App : Type := mkApp {
  app_db : Db;
  app_sessions : gmap string Session
}.

(** What the client sees and holds after a request: the handler's outcome
    and the session cookie it will send next time. *)
Record Reply : Type := mkReply {
  outcome : Outcome;
  cookie_after : option string
}.

Section Requests.

Variable bcrypt_hash : Field -> nat -> string -> Result string.
Variable bcrypt_compare : Field -> string -> Result bool.

Definition register_request (salt : string) (fault : option string)
    (app : App) (body : Body) : App * Outcome :=
  let '(db', out) := post_register bcrypt_hash salt fault (app_db app) body in
  ({| app_db := db'; app_sessions := app_sessions app |}, out).

(** A changed session is saved under the request's session id and that id
    is the cookie from then on; an unchanged one is neither saved
    ([saveUninitialized: false], [resave: false]) nor announced. *)
Definition login_request (fault : option string) (fresh : string)
    (app : App) (cookie : option string) (body : Body) : App * Reply :=
  let session := req_session (app_sessions app) cookie in
  let sid := req_sessionID (app_sessions app) cookie fresh in
  let '(session', out) :=
    post_login bcrypt_compare fault (app_db app) session body in
  if decide (userId session' = userId session)
  then (app, {| outcome := out; cookie_after := cookie |})
  else ({| app_db := app_db app;
           app_sessions := <[sid := session']> (app_sessions app) |},
        {| outcome := out; cookie_after := Some sid |}).

(** The browser drops its cookie when the handler cleared it. *)
Definition logout_request (fault : option string) (fresh : string)
    (app : App) (cookie : option string) : App * Reply :=
  let sid := req_sessionID (app_sessions app) cookie fresh in
  let '(store', out) := get_logout fault sid (app_sessions app) in
  ({| app_db := app_db app; app_sessions := store' |},
   {| outcome := out;
      cookie_after := if clearCookie out is [] then cookie else None |}).

(** A route behind [requireLogin] (such as [GET /new-post]). *)
Definition guarded_request (app : App) (cookie : option string) : Middleware :=
  requireLogin (Some (req_session (app_sessions app) cookie)).

End Requests.

(** ** The Password Hasher *)

Module Hasher.
Section Hasher.

(** The adaptive one-way function itself: from the setting (work factor
    and salt, as text) and the plaintext to the checksum text.  Nothing is
    assumed about it. *)
Variable crypt_raw : string -> string -> string.

(** The implementation-defined length limit: how many characters of the
    plaintext the checksum depends on. *)
Variable limit : nat.

Definition salt_length : nat := 22.

Definition digit (n : nat) : Ascii.ascii :=
  Ascii.ascii_of_nat (48 + n mod 10).

(** The work factor as two decimal digits. *)
Definition cost_text (cost : nat) : string :=
  String (digit (cost / 10)) (String (digit cost) EmptyString).

Definition setting_length : nat := 2 + salt_length.

Definition setting (cost : nat) (salt : string) : string :=
  cost_text cost +:+ salt.

(** The part of the plaintext within the length limit. *)
Definition significant (plaintext : string) : string :=
  String.substring 0 limit plaintext.

(** Modelled from the spec: [hash(plaintext) -> digest] of section 4.1
    (the bcrypt package is a dependency whose code is not in the
    repository).  The salt drawn for the call is the argument [salt]; the
    digest carries the setting in front of the checksum, which is what
    lets [verify] recompute.  Input that is not a string is a HashError.
    A string beyond the length limit is not refused: section 8 requires
    every non-empty string to hash and verify, so the limit bounds what the
    checksum reads, which is how bcrypt applies it. *)
Definition hash (cost : nat) (salt : string) (plaintext : Field) : Result string :=
  match plaintext with
  | None => Err "HashError: data must be a string"
  | Some p =>
      Ok (setting cost salt +:+ crypt_raw (setting cost salt) (significant p))
  end.

(** Modelled from the spec: [verify(plaintext, digest) -> bool] of section
    4.1: recompute with the setting embedded in [digest] and compare; a
    digest too short to hold a setting, or one that does not match, gives
    [false]; [fault] is an internal error of the hasher (VerifyError). *)
Definition verify (fault : option string) (plaintext digest : string) : Result bool :=
  match fault with
  | Some e => Err e
  | None =>
      if (String.length digest <? setting_length)%nat then Ok false
      else
        let s := String.substring 0 setting_length digest in
        Ok (String.eqb (s +:+ crypt_raw s (significant plaintext)) digest)
  end.

End Hasher.
End Hasher.

(** ** A concrete instance to run the handlers on *)

(** A stand-in for the one-way function, good enough to evaluate examples. *)
Definition demo_raw (setting key : string) : string := key +:+ "/" +:+ setting.

Definition demo_hash : Field -> nat -> string -> Result string :=
  fun data rounds salt => Hasher.hash demo_raw 72 rounds salt data.

Definition demo_compare : Field -> string -> Result bool :=
  fun data digest =>
    match data with
    | Some p => Hasher.verify demo_raw 72 None p digest
    | None => Err "data and hash arguments required"
    end.

Definition demo_salt : string := "N9qo8uLOickgx2ZMRZoMye".
Definition other_salt : string := "abcdefghijklmnopqrstuv".

Definition alice_body : Body := mkBody (Some "alice") (Some "secret123").

(** The users table after alice registered on an empty database. *)
Definition alice_db : Db :=
  fst (post_register demo_hash demo_salt None empty_db alice_body).

Definition alice_app : App := {| app_db := alice_db; app_sessions := ∅ |}.

(** The application once alice has logged in; her session token is
    ["tok1"]. *)
Definition session_app : App :=
  fst (login_request demo_compare None "tok1" alice_app None alice_body).

(** ** An invariant of the users table *)

(** The ids of the users table stay positive: registration starts from an
    empty table and AUTOINCREMENT counts from 1. *)
Definition ids_positive (db : Db) : Prop :=
  0 <= sqlite_sequence db /\ Forall (fun u => 1 <= row_id u) (users db).

(** Usernames are unique ([username TEXT NOT NULL UNIQUE]). *)
Definition usernames_unique (db : Db) : Prop :=
  NoDup (map row_username (users db)).

(** Row ids grow along the table and never exceed what AUTOINCREMENT has
    handed out. *)
Definition ids_increasing (db : Db) : Prop :=
  StronglySorted Z.lt (map row_id (users db))
  /\ Forall (fun u => row_id u <= sqlite_sequence db) (users db).

(** Every stored session that names a user names a row of the users
    table. *)
Definition sessions_valid (app : App) : Prop :=
  forall token s uid,
    app_sessions app !! token = Some s -> userId s = Some uid ->
    exists u, u ∈ users (app_db app) /\ row_id u = uid.

(** ** Sequences of authentication requests *)

Inductive AuthRequest : Type :=
  | Register (salt : string) (fault : option string) (body : Body)
  | Login (fault : option string) (fresh : string)
      (cookie : option string) (body : Body)
  | Logout (fault : option string) (fresh : string) (cookie : option string).

Section AuthRuns.

Variable bcrypt_hash : Field -> nat -> string -> Result string.
Variable bcrypt_compare : Field -> string -> Result bool.

Definition auth_step (app : App) (req : AuthRequest) : App :=
  match req with
  | Register salt fault body =>
      fst (register_request bcrypt_hash salt fault app body)
  | Login fault fresh cookie body =>
      fst (login_request bcrypt_compare fault fresh app cookie body)
  | Logout fault fresh cookie =>
      fst (logout_request fault fresh app cookie)
  end.

Definition auth_run (reqs : list AuthRequest) (app : App) : App :=
  fold_left auth_step reqs app.

End AuthRuns.

(** The application at start-up: no users, no sessions. *)
Definition empty_app : App := {| app_db := empty_db; app_sessions := ∅ |}.

(** * The blog routes of [index.js] *)

(** ** The posts and comments tables

    [posts (id INTEGER PRIMARY KEY AUTOINCREMENT, title TEXT NOT NULL,
    content TEXT NOT NULL, created_at DATETIME DEFAULT CURRENT_TIMESTAMP)] and
    [comments (id INTEGER PRIMARY KEY AUTOINCREMENT, post_id INTEGER NOT NULL,
    author TEXT NOT NULL, content TEXT NOT NULL, rating INTEGER NOT NULL,
    created_at DATETIME DEFAULT CURRENT_TIMESTAMP, FOREIGN KEY (post_id)
    REFERENCES posts(id))]. *)

Record Post : Type := mkPost {
  post_id : Z;
  post_title : string;
  post_content : string;
  post_created_at : string
}.

(** [:id] and [rating] reach SQLite as text and meet columns of INTEGER
    affinity.  [Cell] is the type of the values such a column then holds
    (an integer when the text is one, otherwise whatever the conversion
    leaves), compared as SQLite compares them. *)
Record Comment (Cell : Type) : Type := mkComment {
  comment_id : Z;
  comment_post_id : Cell;
  comment_author : string;
  comment_content : string;
  comment_rating : Cell;
  comment_created_at : string
}.
Arguments mkComment {Cell} _ _ _ _ _ _.
Arguments comment_id {Cell} _.
Arguments comment_post_id {Cell} _.
Arguments comment_author {Cell} _.
Arguments comment_content {Cell} _.
Arguments comment_rating {Cell} _.
Arguments comment_created_at {Cell} _.

Record Blog (Cell : Type) : Type := mkBlog {
  posts : list Post;
  posts_sequence : Z;
  comments : list (Comment Cell);
  comments_sequence : Z
}.
Arguments mkBlog {Cell} _ _ _ _.
Arguments posts {Cell} _.
Arguments posts_sequence {Cell} _.
Arguments comments {Cell} _.
Arguments comments_sequence {Cell} _.

(** What a blog route sends.  A rendered view receives, besides the data
    the route passes, [res.locals.user] as the middleware of [index.js] set
    it for the request: [user] is [Some i] for [{ id: i }] and [None] for
    [null]. *)
Inductive Page (Cell : Type) : Type :=
  | RenderHome (user : option Z) (rows : list Post)
  | RenderNewPost (user : option Z)
  | RenderPost (user : option Z) (post : Post) (rows : list (Comment Cell))
  | RenderEditPost (user : option Z) (post : Post)
  | SendStatus (code : Z) (text : string)
  | Plain (r : Response).
Arguments RenderHome {Cell} user rows.
Arguments RenderNewPost {Cell} user.
Arguments RenderPost {Cell} user post rows.
Arguments RenderEditPost {Cell} user post.
Arguments SendStatus {Cell} code text.
Arguments Plain {Cell} r.

Record BlogOutcome (Cell : Type) : Type := mkBlogOutcome {
  page : option (Page Cell);
  blog_console : list string
}.
Arguments mkBlogOutcome {Cell} _ _.
Arguments page {Cell} _.
Arguments blog_console {Cell} _.

(** [ORDER BY id DESC] *)
Definition newer_first {A : Type} (key : A -> Z) : relation A :=
  fun a b => key b <= key a.

Global Instance newer_first_dec {A : Type} (key : A -> Z) :
  RelDecision (newer_first key).
Proof. intros a b. unfold newer_first. apply _. Defined.

Definition order_by_desc {A : Type} (key : A -> Z) (rows : list A) : list A :=
  merge_sort (newer_first key) rows.

(** The requests of the blog, as Express hands them to the routes. *)
Inductive BlogRequest : Type :=
  | GetEditPost (id : string)
  | PostEditPost (id : string) (title content : Field)
  | GetHome
  | GetNewPost
  | GetPost (id : string)
  | PostNewPost (title content : Field)
  | PostDeletePost (id : string)
  | PostComment (id : string) (author content rating : Field).

(** The two routes registered with [requireLogin]. *)
Definition needs_login (req : BlogRequest) : bool :=
  match req with
  | GetNewPost | PostDeletePost _ => true
  | _ => false
  end.

(** The unguarded routes that write to the tables. *)
Definition writes_unguarded (req : BlogRequest) : bool :=
  match req with
  | PostEditPost _ _ _ | PostNewPost _ _ | PostComment _ _ _ _ => true
  | _ => false
  end.

(** What the environment contributes to one request: the failure (if any)
    of the first and of the second database call, and CURRENT_TIMESTAMP. *)
Record BlogEnv : Type := mkBlogEnv {
  fault1 : option string;
  fault2 : option string;
  current_timestamp : string
}.

Section Blog.

Context {Cell : Type} `{EqDecision Cell}.

(** The value an INTEGER-affinity column holds for a bound text, and the
    row id such a value denotes when it is an integer. *)
Variable affinity : string -> Cell.
Variable rowid : Cell -> option Z.

Definition blog_logged (msg : string) : BlogOutcome Cell :=
  {| page := None; blog_console := [msg] |}.

Definition blog_send (p : Page Cell) : BlogOutcome Cell :=
  {| page := Some p; blog_console := [] |}.

(** [WHERE id = ?] on the primary key. *)
Definition id_matches (id : string) (z : Z) : bool :=
  bool_decide (rowid (affinity id) = Some z).

Definition next_post_id (blog : Blog Cell) : Z :=
  Z.max (posts_sequence blog)
        (fold_right (fun p m => Z.max (post_id p) m) 0 (posts blog)) + 1.

Definition next_comment_id (blog : Blog Cell) : Z :=
  Z.max (comments_sequence blog)
        (fold_right (fun c m => Z.max (comment_id c) m) 0 (comments blog)) + 1.

Definition not_null (column : string) : string :=
  "SQLITE_CONSTRAINT: NOT NULL constraint failed: " +:+ column.

(** [SELECT * FROM posts WHERE id = ?] through [db.get] *)
Definition select_post (fault : option string) (blog : Blog Cell)
    (id : string) : Result (option Post) :=
  match fault with
  | Some e => Err e
  | None => Ok (List.find (fun p => id_matches id (post_id p)) (posts blog))
  end.

(** [SELECT * FROM posts ORDER BY id DESC] through [db.all] *)
Definition select_posts (fault : option string) (blog : Blog Cell)
    : Result (list Post) :=
  match fault with
  | Some e => Err e
  | None => Ok (order_by_desc post_id (posts blog))
  end.

(** [SELECT * FROM comments WHERE post_id = ? ORDER BY id DESC] *)
Definition select_comments (fault : option string) (blog : Blog Cell)
    (id : string) : Result (list (Comment Cell)) :=
  match fault with
  | Some e => Err e
  | None =>
      Ok (order_by_desc comment_id
            (List.filter
               (fun c => bool_decide (comment_post_id c = affinity id))
               (comments blog)))
  end.

(** [INSERT INTO posts (title, content) VALUES (?, ?)] *)
Definition insert_post (fault : option string) (timestamp : string)
    (blog : Blog Cell) (title content : Field) : Blog Cell * option string :=
  match fault with
  | Some e => (blog, Some e)
  | None =>
      match title, content with
      | None, _ => (blog, Some (not_null "posts.title"))
      | Some _, None => (blog, Some (not_null "posts.content"))
      | Some t, Some c =>
          let i := next_post_id blog in
          ({| posts := posts blog ++ [mkPost i t c timestamp];
              posts_sequence := i;
              comments := comments blog;
              comments_sequence := comments_sequence blog |}, None)
      end
  end.

(** [UPDATE posts SET title = ?, content = ? WHERE id = ?]: a NULL only
    violates NOT NULL when there is a row to write it to. *)
Definition update_post (fault : option string) (blog : Blog Cell)
    (id : string) (title content : Field) : Blog Cell * option string :=
  match fault with
  | Some e => (blog, Some e)
  | None =>
      if existsb (fun p => id_matches id (post_id p)) (posts blog) then
        match title, content with
        | None, _ => (blog, Some (not_null "posts.title"))
        | Some _, None => (blog, Some (not_null "posts.content"))
        | Some t, Some c =>
            ({| posts :=
                  map (fun p =>
                         if id_matches id (post_id p)
                         then mkPost (post_id p) t c (post_created_at p)
                         else p) (posts blog);
                posts_sequence := posts_sequence blog;
                comments := comments blog;
                comments_sequence := comments_sequence blog |}, None)
        end
      else (blog, None)
  end.

(** [DELETE FROM posts WHERE id = ?].  The connection never turns foreign
    key enforcement on ([index.js] issues no PRAGMA), so the comments of
    the post neither block the deletion nor go with it. *)
Definition delete_post (fault : option string) (blog : Blog Cell)
    (id : string) : Blog Cell * option string :=
  match fault with
  | Some e => (blog, Some e)
  | None =>
      ({| posts := List.filter (fun p => negb (id_matches id (post_id p)))
                     (posts blog);
          posts_sequence := posts_sequence blog;
          comments := comments blog;
          comments_sequence := comments_sequence blog |}, None)
  end.

(** [INSERT INTO comments (post_id, author, content, rating)
    VALUES (?, ?, ?, ?)]; for the same reason the post need not exist. *)
Definition insert_comment (fault : option string) (timestamp : string)
    (blog : Blog Cell) (id : string) (author content rating : Field)
    : Blog Cell * option string :=
  match fault with
  | Some e => (blog, Some e)
  | None =>
      match author, content, rating with
      | None, _, _ => (blog, Some (not_null "comments.author"))
      | Some _, None, _ => (blog, Some (not_null "comments.content"))
      | Some _, Some _, None => (blog, Some (not_null "comments.rating"))
      | Some a, Some c, Some r =>
          let i := next_comment_id blog in
          ({| posts := posts blog;
              posts_sequence := posts_sequence blog;
              comments := comments blog ++
                          [mkComment i (affinity id) a c (affinity r) timestamp];
              comments_sequence := i |}, None)
      end
  end.

(** ** The routes *)

Definition post_not_found : Page Cell := SendStatus 404 "Post not found".

(** [app.get('/post/edit/:id')]; [user] is [res.locals.user]. *)
Definition get_edit_post (user : option Z) (env : BlogEnv) (blog : Blog Cell)
    (id : string) : BlogOutcome Cell :=
  match select_post (fault1 env) blog id with
  | Err msg => blog_logged msg
  | Ok (Some row) => blog_send (RenderEditPost user row)
  | Ok None => blog_send post_not_found
  end.

(** [app.post('/post/edit/:id')] *)
Definition post_edit_post (env : BlogEnv) (blog : Blog Cell) (id : string)
    (title content : Field) : Blog Cell * BlogOutcome Cell :=
  match update_post (fault1 env) blog id title content with
  | (blog', Some msg) => (blog', blog_logged msg)
  | (blog', None) => (blog', blog_send (Plain (Redirect ("/post/" +:+ id))))
  end.

(** [app.get('/')] *)
Definition get_home (user : option Z) (env : BlogEnv) (blog : Blog Cell)
    : BlogOutcome Cell :=
  match select_posts (fault1 env) blog with
  | Err msg => blog_logged msg
  | Ok rows => blog_send (RenderHome user rows)
  end.

(** [app.get('/new-post', requireLogin, ...)], past the guard *)
Definition get_new_post (user : option Z) : BlogOutcome Cell :=
  blog_send (RenderNewPost user).

(** [app.get('/post/:id')] *)
Definition get_post (user : option Z) (env : BlogEnv) (blog : Blog Cell)
    (id : string) : BlogOutcome Cell :=
  match select_post (fault1 env) blog id with
  | Err msg => blog_logged msg
  | Ok (Some row) =>
      match select_comments (fault2 env) blog id with
      | Err msg => blog_logged msg
      | Ok rows => blog_send (RenderPost user row rows)
      end
  | Ok None => blog_send post_not_found
  end.

(** [app.post('/new-post')] *)
Definition post_new_post (env : BlogEnv) (blog : Blog Cell)
    (title content : Field) : Blog Cell * BlogOutcome Cell :=
  match insert_post (fault1 env) (current_timestamp env) blog title content with
  | (blog', Some msg) => (blog', blog_logged msg)
  | (blog', None) => (blog', blog_send (Plain (Redirect "/")))
  end.

(** [app.post('/post/delete/:id', requireLogin, ...)], past the guard *)
Definition post_delete_post (env : BlogEnv) (blog : Blog Cell) (id : string)
    : Blog Cell * BlogOutcome Cell :=
  match delete_post (fault1 env) blog id with
  | (blog', Some msg) => (blog', blog_logged msg)
  | (blog', None) => (blog', blog_send (Plain (Redirect "/")))
  end.

(** [app.post('/post/:id/comment')] *)
Definition post_comment (env : BlogEnv) (blog : Blog Cell) (id : string)
    (author content rating : Field) : Blog Cell * BlogOutcome Cell :=
  match insert_comment (fault1 env) (current_timestamp env) blog id author content rating with
  | (blog', Some msg) => (blog', blog_logged msg)
  | (blog', None) =>
      (blog', blog_send (Plain (Redirect ("/post/" +:+ id))))
  end.

(** A request on its way through the middleware and the route table: the
    [res.locals.user] middleware, then [requireLogin] where the route names
    it, then the handler. *)
Definition blog_request (session : option Session) (env : BlogEnv)
    (blog : Blog Cell) (req : BlogRequest) : Blog Cell * BlogOutcome Cell :=
  let user := locals_user session in
  match req with
  | GetEditPost id => (blog, get_edit_post user env blog id)
  | PostEditPost id title content => post_edit_post env blog id title content
  | GetHome => (blog, get_home user env blog)
  | GetNewPost =>
      match requireLogin session with
      | Next => (blog, get_new_post user)
      | Send r => (blog, blog_send (Plain r))
      end
  | GetPost id => (blog, get_post user env blog id)
  | PostNewPost title content => post_new_post env blog title content
  | PostDeletePost id =>
      match requireLogin session with
      | Next => post_delete_post env blog id
      | Send r => (blog, blog_send (Plain r))
      end
  | PostComment id author content rating =>
      post_comment env blog id author content rating
  end.

(** A sequence of requests, each with its session and environment. *)
Definition blog_run (reqs : list (option Session * BlogEnv * BlogRequest))
    (blog : Blog Cell) : Blog Cell :=
  fold_left (fun b '(session, env, req) => fst (blog_request session env b req))
            reqs blog.

(** No post id exceeds what AUTOINCREMENT has handed out. *)
Definition post_ids_bounded (blog : Blog Cell) : Prop :=
  Forall (fun p => post_id p <= posts_sequence blog) (posts blog).

(** Comment ids are distinct ([id INTEGER PRIMARY KEY]). *)
Definition comment_ids_unique (blog : Blog Cell) : Prop :=
  NoDup (map comment_id (comments blog)).

(** A page with the [user] local of its view blanked. *)
Definition page_without_user (p : Page Cell) : Page Cell :=
  match p with
  | RenderHome _ rows => RenderHome None rows
  | RenderNewPost _ => RenderNewPost None
  | RenderPost _ post rows => RenderPost None post rows
  | RenderEditPost _ post => RenderEditPost None post
  | SendStatus code text => SendStatus code text
  | Plain r => Plain r
  end.

Definition outcome_without_user (out : BlogOutcome Cell) : BlogOutcome Cell :=
  {| page := page_without_user <$> page out;
     blog_console := blog_console out |}.

End Blog.

Definition empty_blog {Cell : Type} : Blog Cell :=
  {| posts := []; posts_sequence := 0; comments := []; comments_sequence := 0 |}.

(** ** A concrete column type to run the routes on *)

Inductive DemoCell : Type :=
  | IntCell (z : Z)
  | TextCell (s : string).

Global Instance DemoCell_eq_dec : EqDecision DemoCell.
Proof. solve_decision. Defined.

(** Decimal digits only; everything else stays text. *)
Fixpoint demo_digits (acc : Z) (s : string) : option Z :=
  match s with
  | EmptyString => Some acc
  | String c rest =>
      let n := Z.of_nat (Ascii.nat_of_ascii c) in
      if (48 <=? n) && (n <=? 57) then demo_digits (10 * acc + (n - 48)) rest
      else None
  end.

Definition demo_affinity (s : string) : DemoCell :=
  match s with
  | EmptyString => TextCell s
  | _ => match demo_digits 0 s with
         | Some z => IntCell z
         | None => TextCell s
         end
  end.

Definition demo_rowid (c : DemoCell) : option Z :=
  match c with
  | IntCell z => Some z
  | TextCell _ => None
  end.

Definition demo_env : BlogEnv :=
  {| fault1 := None; fault2 := None; current_timestamp := "2025-01-01 00:00:00" |}.

(** A blog with two posts and a comment on the first. *)
Definition demo_blog : Blog DemoCell :=
  blog_run demo_affinity demo_rowid
    [(None, demo_env, PostNewPost (Some "Hello") (Some "First post"));
     (None, demo_env, PostNewPost (Some "Again") (Some "Second post"));
     (None, demo_env,
      PostComment "1" (Some "carol") (Some "Nice") (Some "5"))]
    empty_blog.

(** * The file watcher ([scripts/autopush-watcher.js]) *)

(** What the watcher does to the outside world. *)
Inductive WatcherAction : Type :=
  | ConsoleLog (line : string)
  | Spawn (command : string) (args : list string)
  | Exit (code : Z).

(** JavaScript truthiness of an optional string: [undefined] and the empty
    string are falsy. *)
Definition truthy_string (message : option string) : bool :=
  match message with
  | Some EmptyString => false
  | Some _ => true
  | None => false
  end.

(** [runAutopush(message)]: the process it spawns. *)
Definition runAutopush (scriptPath : string) (message : option string)
    : WatcherAction :=
  let args := ["-ExecutionPolicy"; "Bypass"; "-File"; scriptPath] in
  Spawn "powershell"
    (match message with
     | Some m => if truthy_string message then args ++ ["-Message"; m] else args
     | None => args
     end).

(** [debounce(fn, wait)].  The closure's state is its timer: [Some a] while
    a timer is pending that will call [fn] with the arguments [a].  A call
    clears the pending timer and sets a new one; [Expire] is that timer
    running out, which the event loop delivers only for a pending timer. *)
Inductive DebounceEvent (A : Type) : Type :=
  | Call (a : A)
  | Expire.
Arguments Call {A} a.
Arguments Expire {A}.

Definition debounce_step {A : Type} (pending : option A)
    (ev : DebounceEvent A) : option A * list A :=
  match ev with
  | Call a => (Some a, [])
  | Expire =>
      match pending with
      | Some a => (None, [a])
      | None => (None, [])
      end
  end.

(** The calls of [fn] a sequence of events produces, in order. *)
Fixpoint debounce_run {A : Type} (pending : option A)
    (evs : list (DebounceEvent A)) : option A * list A :=
  match evs with
  | [] => (pending, [])
  | ev :: evs' =>
      let '(pending', out) := debounce_step pending ev in
      let '(final, outs) := debounce_run pending' evs' in
      (final, out ++ outs)
  end.

(** The events the watcher reacts to: a chokidar event with its path, or
    the debounce timer running out at the given time (as
    [new Date().toISOString()] prints it). *)
Inductive WatchEvent : Type :=
  | Changed (event changedPath : string)
  | TimerFired (iso_time : string).

(** [['add', 'change', 'unlink', 'addDir', 'unlinkDir'].includes(event)] *)
Definition relevant (event : string) : bool :=
  existsb (String.eqb event) ["add"; "change"; "unlink"; "addDir"; "unlinkDir"].

(** The function handed to [debounce]. *)
Definition on_quiet (scriptPath iso_time pathChanged : string)
    : list WatcherAction :=
  let msg := "Auto-change detected: " +:+ iso_time +:+ " - " +:+ pathChanged in
  [ConsoleLog msg; runAutopush scriptPath (Some msg)].

(** [watcher.on('all', ...)] feeding the debounced function. *)
Definition watcher_step (scriptPath : string) (pending : option string)
    (ev : WatchEvent) : option string * list WatcherAction :=
  match ev with
  | Changed event changedPath =>
      if relevant event
      then (fst (debounce_step pending (Call changedPath)), [])
      else (pending, [])
  | TimerFired iso_time =>
      let '(pending', calls) := debounce_step pending Expire in
      (pending', concat (map (on_quiet scriptPath iso_time) calls))
  end.

Fixpoint watcher_run (scriptPath : string) (pending : option string)
    (evs : list WatchEvent) : option string * list WatcherAction :=
  match evs with
  | [] => (pending, [])
  | ev :: evs' =>
      let '(pending', out) := watcher_step scriptPath pending ev in
      let '(final, outs) := watcher_run scriptPath pending' evs' in
      (final, out ++ outs)
  end.

(** * Properties *)

(** ** The users table *)

Lemma db_run_insert_error fault db username hash db' e :
  db_run_insert fault db username hash = (db', Some e) -> db' = db.
Proof.
  unfold db_run_insert.
  destruct fault; [by inversion 1 |].
  destruct username as [name |]; [| by inversion 1].
  destruct (find_user name (users db)); by inversion 1.
Qed.

Lemma db_run_insert_duplicate db name hash u :
  find_user name (users db) = Some u ->
  db_run_insert None db (Some name) hash = (db, Some unique_username).
Proof. intros Hu. unfold db_run_insert. by rewrite Hu. Qed.

Lemma db_run_insert_new db name hash :
  find_user name (users db) = None ->
  db_run_insert None db (Some name) hash =
    ({| users := users db ++ [mkUser (next_id db) name hash];
        sqlite_sequence := next_id db |}, None).
Proof. intros Hu. unfold db_run_insert. by rewrite Hu. Qed.

Lemma find_user_app_new name rows i hash :
  find_user name rows = None ->
  find_user name (rows ++ [mkUser i name hash]) = Some (mkUser i name hash).
Proof.
  unfold find_user. induction rows as [| r rows IH]; simpl.
  - by rewrite String.eqb_refl.
  - destruct (String.eqb (row_username r) name); [done | apply IH].
Qed.

(** Every id AUTOINCREMENT hands out is at least 1. *)
Lemma next_id_positive db : 0 <= sqlite_sequence db -> 1 <= next_id db.
Proof. unfold next_id. lia. Qed.

(** ** The login handler, branch by branch *)

Section LoginBranches.

Variable bcrypt_compare : Field -> string -> Result bool.

Lemma post_login_store_error fault db session body e :
  db_get_user fault db (body_username body) = Err e ->
  post_login bcrypt_compare fault db session body = (session, logged e).
Proof. intros H. unfold post_login. by rewrite H. Qed.

Lemma post_login_unknown fault db session body :
  db_get_user fault db (body_username body) = Ok None ->
  post_login bcrypt_compare fault db session body =
    (session, respond invalid_credentials).
Proof. intros H. unfold post_login. by rewrite H. Qed.

Lemma post_login_rejected fault db session body u :
  db_get_user fault db (body_username body) = Ok (Some u) ->
  bcrypt_compare (body_password body) (row_password u) <> Ok true ->
  post_login bcrypt_compare fault db session body =
    (session, respond invalid_credentials).
Proof.
  intros H Hc. unfold post_login. rewrite H.
  destruct (bcrypt_compare _ _) as [[|] | e]; [by destruct Hc | done | done].
Qed.

Lemma post_login_accepted fault db session body u :
  db_get_user fault db (body_username body) = Ok (Some u) ->
  bcrypt_compare (body_password body) (row_password u) = Ok true ->
  post_login bcrypt_compare fault db session body =
    ({| userId := Some (row_id u) |}, respond (Redirect "/")).
Proof. intros H Hc. unfold post_login. by rewrite H, Hc. Qed.

(** A login that leaves the session object as it was changes nothing in
    the application and sends no cookie. *)
Lemma login_request_unchanged fault fresh app cookie body out :
  post_login bcrypt_compare fault (app_db app)
    (req_session (app_sessions app) cookie) body =
    (req_session (app_sessions app) cookie, out) ->
  login_request bcrypt_compare fault fresh app cookie body =
    (app, {| outcome := out; cookie_after := cookie |}).
Proof.
  intros H. unfold login_request. rewrite H.
  by destruct (decide _).
Qed.

End LoginBranches.

(** C1: a login for a username that is not in the users table and a login
    for an existing username whose password fails verification are answered
    identically: the same generic "Invalid username or password" page, the
    same (unchanged) session cookie, nothing logged, and the application
    state untouched in both cases. *)
Theorem login_failure_indistinguishable
    (bcrypt_compare : Field -> string -> Result bool)
    (fresh : string) (app : App) (cookie : option string)
    (unknown known : Body) (u : User) :
  db_get_user None (app_db app) (body_username unknown) = Ok None ->
  db_get_user None (app_db app) (body_username known) = Ok (Some u) ->
  bcrypt_compare (body_password known) (row_password u) <> Ok true ->
  login_request bcrypt_compare None fresh app cookie unknown =
    login_request bcrypt_compare None fresh app cookie known
  /\ login_request bcrypt_compare None fresh app cookie unknown =
       (app, {| outcome := respond invalid_credentials;
                cookie_after := cookie |}).
Proof.
  intros Hno Hyes Hbad.
  rewrite (login_request_unchanged _ _ _ _ _ _ (respond invalid_credentials))
    by (by apply post_login_unknown).
  rewrite (login_request_unchanged _ _ _ _ _ _ (respond invalid_credentials))
    by (by eapply post_login_rejected).
  done.
Qed.

Lemma login_failure_indistinguishable_witness :
  let unknown := mkBody (Some "mallory") (Some "secret123") in
  let known := mkBody (Some "alice") (Some "wrong") in
  (db_get_user None alice_db (body_username unknown) = Ok None
   /\ (exists u, db_get_user None alice_db (body_username known) = Ok (Some u)
                /\ demo_compare (body_password known) (row_password u) = Ok false))
  /\ login_request demo_compare None "tok1" alice_app None unknown =
       login_request demo_compare None "tok1" alice_app None known
  /\ login_request demo_compare None "tok1" alice_app None unknown =
       (alice_app, {| outcome := respond invalid_credentials;
                      cookie_after := None |}).
Proof.
  intros unknown known. split.
  - split; [reflexivity |].
    eexists. split; reflexivity.
  - apply (login_failure_indistinguishable demo_compare "tok1" alice_app None
             unknown known
             (mkUser 1 "alice"
                "10N9qo8uLOickgx2ZMRZoMyesecret123/10N9qo8uLOickgx2ZMRZoMye")).
    + reflexivity.
    + reflexivity.
    + vm_compute. discriminate.
Defined.

(** Closes a branch of the login handler in which the session was not
    assigned and no redirect to the home page was sent. *)
Ltac untouched H :=
  destruct H as [H | H]; [by destruct H | discriminate H].

(** C10: the login handler assigns [req.session.userId] (and redirects to
    the home page) only when the user was found and [bcrypt.compare] handed
    back exactly [true]; for a found user and any other verification
    outcome, an internal error included, the session is left as it was and
    the generic invalid-credentials page is rendered. *)
Theorem login_session_only_on_true
    (bcrypt_compare : Field -> string -> Result bool)
    (fault : option string) (db : Db) (session : Session) (body : Body)
    (session' : Session) (out : Outcome) :
  post_login bcrypt_compare fault db session body = (session', out) ->
  (session' <> session \/ response out = Some (Redirect "/") ->
   exists u,
     db_get_user fault db (body_username body) = Ok (Some u)
     /\ bcrypt_compare (body_password body) (row_password u) = Ok true
     /\ session' = {| userId := Some (row_id u) |})
  /\ (forall u,
        db_get_user fault db (body_username body) = Ok (Some u) ->
        bcrypt_compare (body_password body) (row_password u) <> Ok true ->
        session' = session /\ out = respond invalid_credentials).
Proof.
  intros Hrun. split.
  - intros Hset. unfold post_login in Hrun.
    destruct (db_get_user fault db (body_username body)) as [[u |] | e].
    + destruct (bcrypt_compare _ _) as [[|] | e] eqn:Hc;
        inversion Hrun; subst; [by exists u | untouched Hset ..].
    + inversion Hrun; subst. untouched Hset.
    + inversion Hrun; subst. untouched Hset.
  - intros u Hu Hbad.
    rewrite (post_login_rejected _ _ _ _ _ u Hu Hbad) in Hrun.
    by inversion Hrun.
Qed.

Lemma login_session_only_on_true_witness :
  let body := mkBody (Some "alice") (Some "secret123") in
  let session := {| userId := None |} in
  let session' := {| userId := Some 1 |} in
  let out := respond (Redirect "/") in
  post_login demo_compare None alice_db session body = (session', out)
  /\ (session' <> session \/ response out = Some (Redirect "/"))
  /\ exists u,
       db_get_user None alice_db (body_username body) = Ok (Some u)
       /\ demo_compare (body_password body) (row_password u) = Ok true
       /\ session' = {| userId := Some (row_id u) |}.
Proof.
  intros body session session' out.
  assert (Hrun : post_login demo_compare None alice_db session body =
                 (session', out)) by reflexivity.
  split; [exact Hrun |].
  split; [right; reflexivity |].
  apply (proj1 (login_session_only_on_true demo_compare None alice_db
                  session body session' out Hrun)).
  right. reflexivity.
Defined.

(** ** Registration *)

Section RegisterBranches.

Variable bcrypt_hash : Field -> nat -> string -> Result string.

Lemma post_register_hash_error salt fault db body e :
  bcrypt_hash (body_password body) 10%nat salt = Err e ->
  post_register bcrypt_hash salt fault db body = (db, logged e).
Proof. intros H. unfold post_register. by rewrite H. Qed.

Lemma post_register_insert_error salt fault db body h e :
  bcrypt_hash (body_password body) 10%nat salt = Ok h ->
  snd (db_run_insert fault db (body_username body) h) = Some e ->
  post_register bcrypt_hash salt fault db body = (db, logged e).
Proof.
  intros H Hins. unfold post_register. rewrite H.
  destruct (db_run_insert fault db (body_username body) h) as [db' err] eqn:E.
  simpl in Hins. subst err.
  by rewrite (db_run_insert_error _ _ _ _ _ _ E).
Qed.

Lemma post_register_inserted salt db body name h :
  body_username body = Some name ->
  bcrypt_hash (body_password body) 10%nat salt = Ok h ->
  find_user name (users db) = None ->
  post_register bcrypt_hash salt None db body =
    ({| users := users db ++ [mkUser (next_id db) name h];
        sqlite_sequence := next_id db |},
     respond (Redirect "/login")).
Proof.
  intros Hn H Hfree. unfold post_register.
  by rewrite H, Hn, (db_run_insert_new _ _ _ Hfree).
Qed.

(** Whatever happens, the only response registration ever sends is the
    redirect to the login page. *)
Lemma post_register_response salt fault db body r :
  response (snd (post_register bcrypt_hash salt fault db body)) = Some r ->
  r = Redirect "/login".
Proof.
  unfold post_register.
  destruct (bcrypt_hash _ _ _); [| discriminate].
  destruct (db_run_insert _ _ _ _) as [db' [e |]]; simpl; [discriminate |].
  by inversion 1.
Qed.

End RegisterBranches.

(** C2, as the code has it: a register request whose username or password
    is the empty string is not validated.  The password is handed to the
    hasher, and when the hasher returns a digest, the store is available and
    the username is not yet in the table, a row with that username and
    digest is inserted and the answer is the redirect to the login page. *)
Theorem register_empty_not_validated
    (bcrypt_hash : Field -> nat -> string -> Result string)
    (salt : string) (db : Db) (body : Body) (name h : string) :
  body_username body = Some name ->
  name = "" \/ body_password body = Some "" ->
  bcrypt_hash (body_password body) 10%nat salt = Ok h ->
  find_user name (users db) = None ->
  post_register bcrypt_hash salt None db body =
    ({| users := users db ++ [mkUser (next_id db) name h];
        sqlite_sequence := next_id db |},
     respond (Redirect "/login")).
Proof. intros Hn _ Hh Hfree. by apply post_register_inserted. Qed.

Lemma register_empty_not_validated_witness :
  let body := mkBody (Some "bob") (Some "") in
  let h := "10N9qo8uLOickgx2ZMRZoMye/10N9qo8uLOickgx2ZMRZoMye" in
  (body_username body = Some "bob"
   /\ ("bob" = "" \/ body_password body = Some "")
   /\ demo_hash (body_password body) 10%nat demo_salt = Ok h
   /\ find_user "bob" (users alice_db) = None)
  /\ post_register demo_hash demo_salt None alice_db body =
       ({| users := users alice_db ++ [mkUser (next_id alice_db) "bob" h];
           sqlite_sequence := next_id alice_db |},
        respond (Redirect "/login")).
Proof.
  intros body h. split.
  - repeat split; try reflexivity. right. reflexivity.
  - apply (register_empty_not_validated demo_hash demo_salt alice_db body
             "bob" h).
    + reflexivity.
    + right. reflexivity.
    + reflexivity.
    + reflexivity.
Defined.

(** C2 as stated fails: registering the empty username with the empty
    password on an empty database hashes the password, inserts row 1 and
    redirects to the login page. *)
Lemma register_empty_credentials_accepted :
  post_register demo_hash demo_salt None empty_db (mkBody (Some "") (Some "")) =
    ({| users := [mkUser 1 "" "10N9qo8uLOickgx2ZMRZoMye/10N9qo8uLOickgx2ZMRZoMye"];
        sqlite_sequence := 1 |},
     respond (Redirect "/login"))
  /\ fst (post_register demo_hash demo_salt None empty_db
            (mkBody (Some "") (Some ""))) <> empty_db.
Proof. split; [reflexivity | vm_compute; discriminate]. Qed.

(** C3, as the code has it: registering a username that is already in the
    users table leaves the table exactly as it was (the existing row is not
    overwritten) and sends no response at all; when the hasher succeeded and
    the store is available, what the handler does is print the UNIQUE
    constraint message on the console. *)
Theorem register_duplicate_logged
    (bcrypt_hash : Field -> nat -> string -> Result string)
    (salt : string) (fault : option string) (db : Db) (body : Body)
    (name : string) (u : User) :
  body_username body = Some name ->
  find_user name (users db) = Some u ->
  fst (post_register bcrypt_hash salt fault db body) = db
  /\ response (snd (post_register bcrypt_hash salt fault db body)) = None
  /\ (forall h,
        bcrypt_hash (body_password body) 10%nat salt = Ok h ->
        fault = None ->
        snd (post_register bcrypt_hash salt fault db body) =
          logged unique_username).
Proof.
  intros Hn Hu.
  assert (Hins : forall h, exists e,
             db_run_insert fault db (body_username body) h = (db, Some e)).
  { intros h. rewrite Hn. unfold db_run_insert.
    destruct fault as [e |]; [by exists e |].
    rewrite Hu. by eexists. }
  unfold post_register.
  destruct (bcrypt_hash (body_password body) 10%nat salt) as [h | e].
  - destruct (Hins h) as [e He]. rewrite He. simpl.
    split; [done |]. split; [done |].
    intros h' Hh' ->. inversion Hh'; subst h'.
    rewrite Hn, (db_run_insert_duplicate _ _ _ _ Hu) in He.
    by inversion He.
  - simpl. split; [done |]. split; [done |]. intros h' Hh'. discriminate Hh'.
Qed.

Lemma register_duplicate_logged_witness :
  let body := mkBody (Some "alice") (Some "other") in
  (body_username body = Some "alice"
   /\ exists u, find_user "alice" (users alice_db) = Some u)
  /\ fst (post_register demo_hash other_salt None alice_db body) = alice_db
  /\ response (snd (post_register demo_hash other_salt None alice_db body)) = None
  /\ (forall h,
        demo_hash (body_password body) 10%nat other_salt = Ok h ->
        @None string = None ->
        snd (post_register demo_hash other_salt None alice_db body) =
          logged unique_username).
Proof.
  intros body. split.
  - split; [reflexivity |]. eexists. reflexivity.
  - apply (register_duplicate_logged demo_hash other_salt None alice_db body
             "alice"
             (mkUser 1 "alice"
                "10N9qo8uLOickgx2ZMRZoMyesecret123/10N9qo8uLOickgx2ZMRZoMye")).
    + reflexivity.
    + reflexivity.
Defined.

(** C3 as stated fails: a second registration of alice gets no response,
    so in particular no "username taken" page. *)
Lemma register_duplicate_unanswered :
  post_register demo_hash other_salt None alice_db
    (mkBody (Some "alice") (Some "other")) =
    (alice_db,
     {| response := None;
        console_error := [unique_username];
        clearCookie := [] |}).
Proof. reflexivity. Qed.

(** ** Internal failures *)

(** Whatever happens, a response of the login handler is the redirect to
    the home page or the generic invalid-credentials page. *)
Lemma post_login_response
    (bcrypt_compare : Field -> string -> Result bool)
    fault db session body r :
  response (snd (post_login bcrypt_compare fault db session body)) = Some r ->
  r = Redirect "/" \/ r = invalid_credentials.
Proof.
  unfold post_login.
  destruct (db_get_user _ _ _) as [[u |] | e]; simpl.
  - destruct (bcrypt_compare _ _) as [[|] | e]; simpl; inversion 1; auto.
  - inversion 1; auto.
  - discriminate.
Qed.

(** C4, as the code has it.  When the hasher or the store fails during
    registration, or the store fails during login, the handler prints the
    error message on the console and sends no response, leaving users table
    and session as they were; when verification fails with an internal error
    during login, the generic invalid-credentials page is rendered.  In
    every case, a response that is sent is one of three fixed ones (redirect
    to the login page, redirect to the home page, the invalid-credentials
    page), so no internal error text reaches the client. *)
Theorem internal_errors_logged_not_answered
    (bcrypt_hash : Field -> nat -> string -> Result string)
    (bcrypt_compare : Field -> string -> Result bool)
    (salt : string) (fault : option string) (db : Db) (session : Session)
    (body : Body) (e : string) :
  (bcrypt_hash (body_password body) 10%nat salt = Err e
   \/ (exists h, bcrypt_hash (body_password body) 10%nat salt = Ok h
                 /\ snd (db_run_insert fault db (body_username body) h) = Some e) ->
   post_register bcrypt_hash salt fault db body = (db, logged e))
  /\ (db_get_user fault db (body_username body) = Err e ->
      post_login bcrypt_compare fault db session body = (session, logged e))
  /\ (forall u,
        db_get_user fault db (body_username body) = Ok (Some u) ->
        bcrypt_compare (body_password body) (row_password u) = Err e ->
        post_login bcrypt_compare fault db session body =
          (session, respond invalid_credentials))
  /\ (forall r,
        (response (snd (post_register bcrypt_hash salt fault db body)) = Some r ->
         r = Redirect "/login")
        /\ (response (snd (post_login bcrypt_compare fault db session body)) = Some r ->
            r = Redirect "/" \/ r = invalid_credentials)).
Proof.
  repeat split.
  - intros [Hh | (h & Hh & Hins)].
    + by apply post_register_hash_error.
    + by eapply post_register_insert_error.
  - apply post_login_store_error.
  - intros u Hu Hc. eapply post_login_rejected; [exact Hu |].
    rewrite Hc. discriminate.
  - apply post_register_response.
  - apply post_login_response.
Qed.

Lemma internal_errors_logged_not_answered_witness :
  let fault := Some "SQLITE_BUSY: database is locked" in
  let session := {| userId := None |} in
  (exists h, demo_hash (body_password alice_body) 10%nat demo_salt = Ok h
             /\ snd (db_run_insert fault empty_db (body_username alice_body) h) =
                  Some "SQLITE_BUSY: database is locked")
  /\ db_get_user fault empty_db (body_username alice_body) =
       Err "SQLITE_BUSY: database is locked"
  /\ post_register demo_hash demo_salt fault empty_db alice_body =
       (empty_db, logged "SQLITE_BUSY: database is locked")
  /\ post_login demo_compare fault empty_db session alice_body =
       (session, logged "SQLITE_BUSY: database is locked").
Proof.
  intros fault session.
  assert (Hins : exists h,
             demo_hash (body_password alice_body) 10%nat demo_salt = Ok h
             /\ snd (db_run_insert fault empty_db (body_username alice_body) h) =
                  Some "SQLITE_BUSY: database is locked").
  { eexists. split; reflexivity. }
  assert (Hget : db_get_user fault empty_db (body_username alice_body) =
                 Err "SQLITE_BUSY: database is locked") by reflexivity.
  destruct (internal_errors_logged_not_answered demo_hash demo_compare
              demo_salt fault empty_db session alice_body
              "SQLITE_BUSY: database is locked") as (Hreg & Hlog & _).
  split; [exact Hins |]. split; [exact Hget |].
  split; [apply Hreg; right; exact Hins | apply Hlog; exact Hget].
Defined.

(** C4 as stated fails: when the users table cannot be read, a login
    request is never answered. *)
Lemma login_store_failure_unanswered :
  post_login demo_compare (Some "SQLITE_BUSY: database is locked") alice_db
    {| userId := None |} alice_body =
    ({| userId := None |},
     {| response := None;
        console_error := ["SQLITE_BUSY: database is locked"];
        clearCookie := [] |}).
Proof. reflexivity. Qed.

(** ** Sessions *)

Lemma req_session_create token user_id (store : gmap string Session) :
  req_session (fst (create token user_id store)) (Some (snd (create token user_id store))) =
    {| userId := Some user_id |}.
Proof.
  unfold req_session, create. simpl. by rewrite lookup_insert_eq.
Qed.

Lemma req_session_deleted token (store : gmap string Session) :
  req_session (delete token store) (Some token) = {| userId := None |}.
Proof. unfold req_session. simpl. by rewrite lookup_delete_eq. Qed.

(** A successful login is [create] on the session id of the request, and
    that id is the cookie the client holds afterwards. *)
Lemma login_request_creates
    (bcrypt_compare : Field -> string -> Result bool)
    fresh app cookie body u :
  db_get_user None (app_db app) (body_username body) = Ok (Some u) ->
  bcrypt_compare (body_password body) (row_password u) = Ok true ->
  let sid := req_sessionID (app_sessions app) cookie fresh in
  login_request bcrypt_compare None fresh app cookie body =
    ({| app_db := app_db app;
        app_sessions := fst (create sid (row_id u) (app_sessions app)) |},
     {| outcome := respond (Redirect "/");
        cookie_after := Some (snd (create sid (row_id u) (app_sessions app))) |}).
Proof.
  intros Hu Hc sid. unfold login_request.
  rewrite (post_login_accepted _ _ _ _ _ u Hu Hc).
  destruct (decide _) as [Heq | Hne]; [| done].
  (* the session of the request already carried this id *)
  subst sid. destruct app as [db store]. simpl in *.
  unfold req_session, session_lookup in Heq.
  destruct cookie as [t |]; [| discriminate Heq].
  unfold req_sessionID.
  destruct (store !! t) as [[uid] |] eqn:E; simpl in Heq; [| discriminate Heq].
  subst uid. by rewrite insert_id.
Qed.

(** Every row of the users table has a positive id. *)
Lemma ids_positive_empty : ids_positive empty_db.
Proof. split; [done | constructor]. Qed.

Lemma ids_positive_register
    (bcrypt_hash : Field -> nat -> string -> Result string)
    salt fault db body :
  ids_positive db ->
  ids_positive (fst (post_register bcrypt_hash salt fault db body)).
Proof.
  intros [Hseq Hrows]. unfold post_register.
  destruct (bcrypt_hash _ _ _) as [h | e]; [| done].
  destruct (db_run_insert fault db (body_username body) h) as [db' [e |]] eqn:E.
  - by rewrite (db_run_insert_error _ _ _ _ _ _ E).
  - unfold db_run_insert in E.
    destruct fault; [discriminate E |].
    destruct (body_username body) as [name |]; [| discriminate E].
    destruct (find_user name (users db)); inversion E; subst db'; simpl.
    pose proof (next_id_positive db Hseq).
    split; simpl; [lia |].
    apply Forall_app. split; [done |]. by repeat constructor.
Qed.

Lemma find_user_positive name db u :
  ids_positive db -> find_user name (users db) = Some u -> row_id u <> 0.
Proof.
  intros [_ Hrows] Hu. apply find_some in Hu as [Hin _].
  rewrite Forall_forall in Hrows.
  apply list_elem_of_In, Hrows in Hin. lia.
Qed.

(** [resolve] reads the session the middleware attaches for the token. *)
Lemma resolve_req_session (store : gmap string Session)
    (token : option string) :
  resolve store token = userId (req_session store token).
Proof. unfold resolve, req_session. by destruct (session_lookup store token). Qed.

(** After a successful login the cookie the client holds resolves to the
    user that logged in. *)
Lemma login_then_resolve
    (bcrypt_compare : Field -> string -> Result bool)
    fresh app cookie body u :
  db_get_user None (app_db app) (body_username body) = Ok (Some u) ->
  bcrypt_compare (body_password body) (row_password u) = Ok true ->
  let r := login_request bcrypt_compare None fresh app cookie body in
  resolve (app_sessions (fst r)) (cookie_after (snd r)) = Some (row_id u).
Proof.
  intros Hu Hc r. subst r.
  rewrite (login_request_creates _ _ _ _ _ u Hu Hc). simpl.
  unfold resolve. simpl. by rewrite lookup_insert_eq.
Qed.

(** A user that registration has just inserted is the row a login with the
    same username finds. *)
Lemma registered_user_found
    (bcrypt_hash : Field -> nat -> string -> Result string)
    salt db body name h :
  body_username body = Some name ->
  bcrypt_hash (body_password body) 10%nat salt = Ok h ->
  find_user name (users db) = None ->
  db_get_user None (fst (post_register bcrypt_hash salt None db body))
    (body_username body) = Ok (Some (mkUser (next_id db) name h)).
Proof.
  intros Hn Hh Hfree.
  rewrite (post_register_inserted _ _ _ _ _ _ Hn Hh Hfree), Hn. simpl.
  by rewrite find_user_app_new.
Qed.

(** C6: for every user id, resolving the token returned by [create] right
    after the creation, with no destroy in between, yields that same user
    id. *)
Theorem resolve_create (token : string) (user_id : Z)
    (store : gmap string Session) :
  resolve (fst (create token user_id store))
          (Some (snd (create token user_id store))) = Some user_id.
Proof.
  rewrite resolve_req_session. by rewrite req_session_create.
Qed.

Lemma destroy_repeatedly_absent n token (store : gmap string Session) :
  store !! token = None ->
  destroy_repeatedly n token store = (store, replicate n None).
Proof.
  intros Habs. induction n as [| n IH]; [done |].
  simpl. rewrite (delete_id _ _ Habs), IH. done.
Qed.

(** C7: after [destroy] the token resolves to nothing, and [destroy] may be
    repeated any number of times, on a token that is gone or never existed:
    no call reports an error and the store stays the one the first call
    left. *)
Theorem destroy_idempotent (n : nat) (token : string)
    (store : gmap string Session) :
  resolve (fst (destroy None token store)) (Some token) = None
  /\ destroy_repeatedly (S n) token store =
       (delete token store, replicate (S n) None)
  /\ destroy None token (delete token store) = (delete token store, None).
Proof.
  split; [| split].
  - rewrite resolve_req_session. simpl. by rewrite req_session_deleted.
  - simpl. rewrite destroy_repeatedly_absent by apply lookup_delete_eq. done.
  - simpl. by rewrite delete_delete_eq.
Qed.

(** The general shape of [requireLogin] and of the [res.locals.user]
    middleware: they take the same decision on every session, [undefined]
    included. *)
Lemma requireLogin_locals_user (session : option Session) :
  match locals_user session with
  | Some uid =>
      requireLogin session = Next /\ (userId <$> session) = Some (Some uid)
  | None => requireLogin session = Send (Redirect "/login")
  end.
Proof.
  unfold locals_user, requireLogin, logged_in.
  destruct session as [[uid] |]; simpl; [| done].
  destruct (truthy uid) eqn:Ht; [| done].
  destruct uid as [i |]; [done | discriminate Ht].
Qed.

Lemma resolve_after_delete fresh (store : gmap string Session)
    (cookie : option string) :
  resolve (delete (req_sessionID store cookie fresh) store) cookie = None.
Proof.
  unfold resolve, session_lookup, req_sessionID.
  destruct cookie as [t |]; [| done].
  destruct (store !! t) as [s |] eqn:E.
  - by rewrite lookup_delete_eq.
  - destruct (decide (fresh = t)) as [-> | Hne].
    + by rewrite lookup_delete_eq.
    + by rewrite lookup_delete_ne, E.
Qed.

(** C8, as the code has it: when [req.session.destroy] reports no error,
    which includes the request whose session is already gone, GET /logout
    removes the session of the request, clears the [connect.sid] cookie and
    redirects to the login page, and the cookie resolves to nothing
    afterwards; when destroy reports an error, the handler redirects to the
    home page instead, and neither the store nor the cookie changes. *)
Theorem logout_outcome (fault : option string) (fresh : string) (app : App)
    (cookie : option string) :
  (fault = None ->
   logout_request fault fresh app cookie =
     ({| app_db := app_db app;
         app_sessions :=
           delete (req_sessionID (app_sessions app) cookie fresh)
                  (app_sessions app) |},
      {| outcome := {| response := Some (Redirect "/login");
                       console_error := [];
                       clearCookie := ["connect.sid"] |};
         cookie_after := None |})
   /\ resolve (app_sessions (fst (logout_request fault fresh app cookie)))
              cookie = None)
  /\ (forall e, fault = Some e ->
        logout_request fault fresh app cookie =
          (app, {| outcome := respond (Redirect "/");
                   cookie_after := cookie |})).
Proof.
  split.
  - intros ->. split; [reflexivity |].
    simpl. apply resolve_after_delete.
  - intros e ->. by destruct app.
Qed.

Lemma logout_outcome_witness :
  (@None string = None
   /\ logout_request None "tok2" session_app (Some "tok1") =
        (alice_app,
         {| outcome := {| response := Some (Redirect "/login");
                          console_error := [];
                          clearCookie := ["connect.sid"] |};
            cookie_after := None |}))
  /\ (Some "store unavailable" = Some "store unavailable"
      /\ logout_request (Some "store unavailable") "tok2" session_app
           (Some "tok1") =
           (session_app, {| outcome := respond (Redirect "/");
                            cookie_after := Some "tok1" |})).
Proof.
  split.
  - split; [reflexivity |].
    destruct (logout_outcome None "tok2" session_app (Some "tok1"))
      as [Hok _].
    destruct (Hok eq_refl) as [Hrun _].
    rewrite Hrun. vm_compute. reflexivity.
  - split; [reflexivity |].
    destruct (logout_outcome (Some "store unavailable") "tok2" session_app
                (Some "tok1")) as [_ Herr].
    apply (Herr "store unavailable" eq_refl).
Defined.

(** C8 as stated fails: when destroy reports an error, the redirect goes to
    the home page, the cookie is not cleared and the session stays. *)
Lemma logout_destroy_error_goes_home :
  let r := logout_request (Some "store unavailable") "tok2" session_app
             (Some "tok1") in
  response (outcome (snd r)) = Some (Redirect "/")
  /\ clearCookie (outcome (snd r)) = []
  /\ resolve (app_sessions (fst r)) (Some "tok1") = Some 1.
Proof. repeat split; reflexivity. Qed.

(** ** The Password Hasher: hash, then verify *)




Section HasherFacts.

Variable crypt_raw : string -> string -> string.
Variable limit : nat.




End HasherFacts.



(** ** The scenario of the specification, run on the model *)

Example scenario :
  let body name pw := mkBody (Some name) (Some pw) in
  let app0 := {| app_db := empty_db; app_sessions := ∅ |} in
  let '(app1, out1) :=
    register_request demo_hash demo_salt None app0 (body "alice" "secret123") in
  let '(app2, out2) :=
    register_request demo_hash other_salt None app1 (body "alice" "other") in
  let '(app3, reply3) :=
    login_request demo_compare None "tok1" app2 None (body "alice" "wrong") in
  let '(app4, reply4) :=
    login_request demo_compare None "tok1" app3 (cookie_after reply3)
      (body "alice" "secret123") in
  let '(app5, reply5) :=
    logout_request None "tok2" app4 (cookie_after reply4) in
  response out1 = Some (Redirect "/login")
  /\ response out2 = None /\ app_db app2 = app_db app1
  /\ response (outcome reply3) = Some invalid_credentials
  /\ response (outcome reply4) = Some (Redirect "/")
  /\ cookie_after reply4 = Some "tok1"
  /\ guarded_request app4 (cookie_after reply4) = Next
  /\ response (outcome reply5) = Some (Redirect "/login")
  /\ cookie_after reply5 = None
  /\ guarded_request app5 (Some "tok1") = Send (Redirect "/login").
Proof. vm_compute. repeat split. Qed.

(** * Further properties of the authentication routes *)

Lemma find_user_None name rows :
  find_user name rows = None -> name ∉ map row_username rows.
Proof.
  unfold find_user. induction rows as [| r rows IH]; simpl.
  - intros _. apply not_elem_of_nil.
  - destruct (String.eqb_spec (row_username r) name) as [| Hne]; [done |].
    intros H. apply not_elem_of_cons. split; [congruence | by apply IH].
Qed.

Lemma find_user_Some name rows u :
  find_user name rows = Some u -> u ∈ rows /\ row_username u = name.
Proof.
  intros H. apply find_some in H as [Hin Heq].
  split; [by apply list_elem_of_In | by apply String.eqb_eq].
Qed.

Lemma find_user_app_old name rows more u :
  find_user name rows = Some u -> find_user name (rows ++ more) = Some u.
Proof.
  unfold find_user. induction rows as [| r rows IH]; simpl; [done |].
  destruct (String.eqb (row_username r) name); [done | apply IH].
Qed.

(** What registration does to the users table: nothing, or one row
    appended for a username the table did not have, with the next id. *)
Lemma post_register_cases
    (bcrypt_hash : Field -> nat -> string -> Result string)
    salt fault db body :
  fst (post_register bcrypt_hash salt fault db body) = db
  \/ exists name h,
       body_username body = Some name
       /\ find_user name (users db) = None
       /\ fst (post_register bcrypt_hash salt fault db body) =
            {| users := users db ++ [mkUser (next_id db) name h];
               sqlite_sequence := next_id db |}.
Proof.
  unfold post_register.
  destruct (bcrypt_hash _ _ _) as [h | e]; [| by left].
  destruct (db_run_insert fault db (body_username body) h) as [db' [e |]] eqn:E.
  - left. simpl. by eapply db_run_insert_error.
  - right. unfold db_run_insert in E.
    destruct fault; [discriminate E |].
    destruct (body_username body) as [name |]; [| discriminate E].
    destruct (find_user name (users db)) eqn:Hf; [discriminate E |].
    inversion E; subst db'. by exists name, h.
Qed.

Lemma max_row_id_bound rows m :
  0 <= m -> Forall (fun u => row_id u <= m) rows -> max_row_id rows <= m.
Proof.
  intros Hm. induction 1 as [| u rows Hu _ IH]; simpl; lia.
Qed.

Lemma max_row_id_ge rows u : u ∈ rows -> row_id u <= max_row_id rows.
Proof.
  induction rows as [| r rows IH]; [by intros ?%elem_of_nil |].
  intros [-> | Hin]%elem_of_cons; simpl; [lia |].
  specialize (IH Hin). lia.
Qed.

Lemma StronglySorted_snoc_lt (l : list Z) (x : Z) :
  StronglySorted Z.lt l -> Forall (fun y => y < x) l ->
  StronglySorted Z.lt (l ++ [x]).
Proof.
  induction 1 as [| y l Hs IH Hy]; intros Hall; simpl.
  - by repeat constructor.
  - apply Forall_cons in Hall as [Hyx Hall]. constructor; [by apply IH |].
    apply Forall_app. split; [done | by constructor].
Qed.

(** X1: registration keeps usernames unique, whatever the hasher and the
    store do. *)
Theorem register_keeps_usernames_unique
    (bcrypt_hash : Field -> nat -> string -> Result string)
    (salt : string) (fault : option string) (db : Db) (body : Body) :
  usernames_unique db ->
  usernames_unique (fst (post_register bcrypt_hash salt fault db body)).
Proof.
  intros Hu.
  destruct (post_register_cases bcrypt_hash salt fault db body)
    as [-> | (name & h & _ & Hfree & ->)]; [done |].
  unfold usernames_unique in *. simpl. rewrite map_app. simpl.
  apply NoDup_app. split; [done |]. split.
  - intros x Hx [-> | []%elem_of_nil]%elem_of_cons.
    by apply (find_user_None _ _ Hfree).
  - apply NoDup_singleton.
Qed.


Lemma register_keeps_usernames_unique_witness :
  usernames_unique alice_db
  /\ usernames_unique
       (fst (post_register demo_hash other_salt None alice_db
               (mkBody (Some "bob") (Some "hunter2")))).
Proof.
  assert (H : usernames_unique alice_db).
  { unfold usernames_unique. vm_compute. apply NoDup_singleton. }
  split; [exact H |].
  apply (register_keeps_usernames_unique demo_hash other_salt None alice_db
           (mkBody (Some "bob") (Some "hunter2")) H).
Defined.

(** X2: registration keeps the row ids strictly increasing along the table
    and bounded by [sqlite_sequence], so an id is never handed out twice. *)
Theorem register_keeps_ids_increasing
    (bcrypt_hash : Field -> nat -> string -> Result string)
    (salt : string) (fault : option string) (db : Db) (body : Body) :
  ids_increasing db ->
  ids_increasing (fst (post_register bcrypt_hash salt fault db body))
  /\ sqlite_sequence db <=
       sqlite_sequence (fst (post_register bcrypt_hash salt fault db body)).
Proof.
  intros [Hsorted Hbound].
  destruct (post_register_cases bcrypt_hash salt fault db body)
    as [-> | (name & h & _ & _ & ->)]; [by split |].
  assert (Hnext : forall u, u ∈ users db -> row_id u < next_id db).
  { intros u Hin. pose proof (max_row_id_ge _ _ Hin). unfold next_id. lia. }
  split; [split |]; simpl.
  - rewrite map_app. apply StronglySorted_snoc_lt; [done |].
    apply Forall_forall. intros y (u & -> & Hin)%list_elem_of_fmap.
    by apply Hnext.
  - apply Forall_app. split.
    + apply Forall_forall. intros u Hin. specialize (Hnext u Hin). lia.
    + by repeat constructor.
  - unfold next_id. lia.
Qed.


Lemma register_keeps_ids_increasing_witness :
  ids_increasing alice_db
  /\ ids_increasing
       (fst (post_register demo_hash other_salt None alice_db
               (mkBody (Some "bob") (Some "hunter2")))).
Proof.
  assert (H : ids_increasing alice_db).
  { split; vm_compute; repeat constructor. discriminate. }
  split; [exact H |].
  apply (register_keeps_ids_increasing demo_hash other_salt None alice_db
           (mkBody (Some "bob") (Some "hunter2")) H).
Defined.

(** X3: registration never changes or removes a row: the old table is a
    prefix of the new one, which has at most one row more. *)
Theorem register_appends_only
    (bcrypt_hash : Field -> nat -> string -> Result string)
    (salt : string) (fault : option string) (db : Db) (body : Body) :
  users db `prefix_of` users (fst (post_register bcrypt_hash salt fault db body))
  /\ (length (users (fst (post_register bcrypt_hash salt fault db body)))
      <= S (length (users db)))%nat.
Proof.
  destruct (post_register_cases bcrypt_hash salt fault db body)
    as [-> | (name & h & _ & _ & ->)]; simpl.
  - split; [done | lia].
  - split; [by apply prefix_app_r | rewrite length_app; simpl; lia].
Qed.


(** X4: a username that is registered keeps naming the same row after any
    further registration, so registering again cannot replace the stored
    password of an account. *)
Theorem register_keeps_accounts
    (bcrypt_hash : Field -> nat -> string -> Result string)
    (salt : string) (fault : option string) (db : Db) (body : Body)
    (name : string) (u : User) :
  find_user name (users db) = Some u ->
  find_user name (users (fst (post_register bcrypt_hash salt fault db body))) =
    Some u.
Proof.
  intros Hu.
  destruct (post_register_cases bcrypt_hash salt fault db body)
    as [-> | (name' & h & _ & _ & ->)]; [done |].
  simpl. by apply find_user_app_old.
Qed.

Lemma register_keeps_accounts_witness :
  let alice := mkUser 1 "alice"
                 "10N9qo8uLOickgx2ZMRZoMyesecret123/10N9qo8uLOickgx2ZMRZoMye" in
  find_user "alice" (users alice_db) = Some alice
  /\ find_user "alice"
       (users (fst (post_register demo_hash other_salt None alice_db
                      (mkBody (Some "bob") (Some "hunter2"))))) = Some alice.
Proof.
  intros alice. split; [reflexivity |].
  apply (register_keeps_accounts demo_hash other_salt None alice_db
           (mkBody (Some "bob") (Some "hunter2")) "alice" alice).
  reflexivity.
Defined.

(** X5: registering a new username and then logging in with the same
    credentials works, for every hasher whose [compare] accepts the digest
    its [hash] produced: the registration redirects to the login page, the
    login binds the session to the new row and redirects to the home page,
    and that session passes [requireLogin] and fills [res.locals.user]. *)
Theorem register_then_login
    (bcrypt_hash : Field -> nat -> string -> Result string)
    (bcrypt_compare : Field -> string -> Result bool)
    (salt : string) (db : Db) (session : Session)
    (body : Body) (name h : string) :
  ids_positive db ->
  body_username body = Some name ->
  find_user name (users db) = None ->
  bcrypt_hash (body_password body) 10%nat salt = Ok h ->
  bcrypt_compare (body_password body) h = Ok true ->
  let registered := post_register bcrypt_hash salt None db body in
  let logged := post_login bcrypt_compare None (fst registered) session body in
  response (snd registered) = Some (Redirect "/login")
  /\ logged = ({| userId := Some (next_id db) |}, respond (Redirect "/"))
  /\ requireLogin (Some (fst logged)) = Next
  /\ locals_user (Some (fst logged)) = Some (next_id db).
Proof.
  intros [Hseq _] Hn Hfree Hh Hc registered logged.
  pose proof (post_register_inserted bcrypt_hash salt _ body name h Hn Hh Hfree)
    as Hreg.
  pose proof (registered_user_found bcrypt_hash salt _ body name h Hn Hh Hfree)
    as Hfound.
  assert (Hlog : logged =
                 ({| userId := Some (next_id db) |}, respond (Redirect "/"))).
  { subst logged registered.
    by rewrite (post_login_accepted bcrypt_compare None _ session body
                  (mkUser (next_id db) name h) Hfound Hc). }
  split; [subst registered; by rewrite Hreg |].
  split; [exact Hlog |]. rewrite Hlog. simpl.
  pose proof (next_id_positive db Hseq) as Hpos.
  unfold requireLogin, locals_user. simpl.
  destruct (Z.eqb_spec (next_id db) 0) as [Hz | _]; [lia | done].
Qed.

Lemma register_then_login_witness :
  let body := mkBody (Some "bob") (Some "hunter2") in
  let registered := post_register demo_hash other_salt None alice_db body in
  let logged := post_login demo_compare None (fst registered)
                  {| userId := None |} body in
  (ids_positive alice_db /\ find_user "bob" (users alice_db) = None)
  /\ response (snd registered) = Some (Redirect "/login")
  /\ logged = ({| userId := Some 2 |}, respond (Redirect "/"))
  /\ requireLogin (Some (fst logged)) = Next
  /\ locals_user (Some (fst logged)) = Some 2.
Proof.
  intros body registered logged.
  assert (Hpos : ids_positive alice_db).
  { apply (ids_positive_register demo_hash demo_salt None empty_db alice_body).
    apply ids_positive_empty. }
  split; [split; [exact Hpos | reflexivity] |].
  apply (register_then_login demo_hash demo_compare other_salt alice_db
           {| userId := None |} body "bob"
           "10abcdefghijklmnopqrstuvhunter2/10abcdefghijklmnopqrstuv");
    [exact Hpos | reflexivity | reflexivity | reflexivity | reflexivity].
Defined.

(** X6: a login that redirects to the home page has bound the session to a
    row of the users table whose username is exactly (case-sensitively) the
    submitted one, and the store did not fail. *)
Theorem login_binds_submitted_username
    (bcrypt_compare : Field -> string -> Result bool)
    (fault : option string) (db : Db) (session : Session) (body : Body)
    (session' : Session) (out : Outcome) :
  post_login bcrypt_compare fault db session body = (session', out) ->
  response out = Some (Redirect "/") ->
  exists name u,
    body_username body = Some name
    /\ u ∈ users db
    /\ row_username u = name
    /\ session' = {| userId := Some (row_id u) |}
    /\ fault = None.
Proof.
  unfold post_login, db_get_user. intros Hrun Hresp.
  destruct fault as [e |]; [inversion Hrun; subst; discriminate Hresp |].
  destruct (body_username body) as [name |];
    [| inversion Hrun; subst; discriminate Hresp].
  destruct (find_user name (users db)) as [u |] eqn:Hu;
    [| inversion Hrun; subst; discriminate Hresp].
  apply find_user_Some in Hu as [Hin Hname].
  destruct (bcrypt_compare _ _) as [[|] | e]; inversion Hrun; subst;
    try discriminate Hresp.
  by exists (row_username u), u.
Qed.

Lemma login_binds_submitted_username_witness :
  exists name u,
    body_username alice_body = Some name
    /\ u ∈ users alice_db
    /\ row_username u = name
    /\ {| userId := Some 1 |} = {| userId := Some (row_id u) |}
    /\ @None string = None.
Proof.
  apply (login_binds_submitted_username demo_compare None alice_db
           {| userId := None |} alice_body {| userId := Some 1 |}
           (respond (Redirect "/"))); reflexivity.
Defined.

(** X7: a request that lacks the username field.  Login answers with the
    generic invalid-credentials page whatever the table holds;
    registration, once the password is hashed, is refused by the NOT NULL
    constraint: the message is logged, nothing is inserted and nothing is
    sent. *)
Theorem missing_username
    (bcrypt_hash : Field -> nat -> string -> Result string)
    (bcrypt_compare : Field -> string -> Result bool)
    (salt : string) (db : Db) (session : Session) (body : Body) (h : string) :
  body_username body = None ->
  bcrypt_hash (body_password body) 10%nat salt = Ok h ->
  post_login bcrypt_compare None db session body =
    (session, respond invalid_credentials)
  /\ post_register bcrypt_hash salt None db body =
       (db, logged not_null_username).
Proof.
  intros Hn Hh. unfold post_login, post_register, db_get_user, db_run_insert.
  by rewrite Hn, Hh.
Qed.

Lemma missing_username_witness :
  let body := mkBody None (Some "secret123") in
  post_login demo_compare None alice_db {| userId := None |} body =
    ({| userId := None |}, respond invalid_credentials)
  /\ post_register demo_hash demo_salt None alice_db body =
       (alice_db, logged not_null_username).
Proof.
  intros body.
  apply (missing_username demo_hash demo_compare demo_salt alice_db
           {| userId := None |} body
           "10N9qo8uLOickgx2ZMRZoMyesecret123/10N9qo8uLOickgx2ZMRZoMye");
    reflexivity.
Defined.

(** ** Sessions of other clients *)

Lemma login_request_cases
    (bcrypt_compare : Field -> string -> Result bool)
    fault fresh app cookie body :
  fst (login_request bcrypt_compare fault fresh app cookie body) = app
  \/ exists u,
       u ∈ users (app_db app)
       /\ fst (login_request bcrypt_compare fault fresh app cookie body) =
            {| app_db := app_db app;
               app_sessions :=
                 <[req_sessionID (app_sessions app) cookie fresh :=
                     {| userId := Some (row_id u) |}]> (app_sessions app) |}.
Proof.
  unfold login_request.
  destruct (post_login bcrypt_compare fault (app_db app)
              (req_session (app_sessions app) cookie) body)
    as [session' out] eqn:Hrun.
  destruct (decide _) as [| Hne]; [by left |]. right.
  unfold post_login, db_get_user in Hrun.
  destruct fault; [inversion Hrun; by subst |].
  destruct (body_username body) as [name |]; [| inversion Hrun; by subst].
  destruct (find_user name (users (app_db app))) as [u |] eqn:Hu;
    [| inversion Hrun; by subst].
  apply find_user_Some in Hu as [Hin _].
  destruct (bcrypt_compare _ _) as [[|] | e]; inversion Hrun; subst;
    try done.
  by exists u.
Qed.

Lemma logout_request_cases fault fresh app cookie :
  app_db (fst (logout_request fault fresh app cookie)) = app_db app
  /\ (app_sessions (fst (logout_request fault fresh app cookie)) =
        app_sessions app
      \/ app_sessions (fst (logout_request fault fresh app cookie)) =
           delete (req_sessionID (app_sessions app) cookie fresh)
                  (app_sessions app)).
Proof. destruct fault; simpl; auto. Qed.

(** A login request never touches the users table, and the only
    session it can change is the one of the request itself: what every other
    token resolves to stays as it was. *)
Theorem login_leaves_other_sessions
    (bcrypt_compare : Field -> string -> Result bool)
    (fault : option string) (fresh : string) (app : App)
    (cookie : option string) (body : Body) (token : string) :
  token <> req_sessionID (app_sessions app) cookie fresh ->
  let app' := fst (login_request bcrypt_compare fault fresh app cookie body) in
  app_db app' = app_db app
  /\ app_sessions app' !! token = app_sessions app !! token
  /\ resolve (app_sessions app') (Some token) =
       resolve (app_sessions app) (Some token).
Proof.
  intros Hne app'. subst app'.
  destruct (login_request_cases bcrypt_compare fault fresh app cookie body)
    as [-> | (u & _ & ->)]; [done |].
  simpl. split; [done |].
  assert (Hl : <[req_sessionID (app_sessions app) cookie fresh :=
                   {| userId := Some (row_id u) |}]> (app_sessions app)
               !! token = app_sessions app !! token)
    by (by apply lookup_insert_ne).
  split; [exact Hl |].
  unfold resolve, session_lookup. by rewrite Hl.
Qed.

Lemma login_leaves_other_sessions_witness :
  let app' := fst (login_request demo_compare None "tok2" session_app None
                     alice_body) in
  "tok1" <> "tok2"
  /\ app_db app' = app_db session_app
  /\ app_sessions app' !! "tok1" = app_sessions session_app !! "tok1"
  /\ resolve (app_sessions app') (Some "tok1") =
       resolve (app_sessions session_app) (Some "tok1").
Proof.
  intros app'. split; [discriminate |].
  apply (login_leaves_other_sessions demo_compare None "tok2" session_app
           None alice_body "tok1").
  discriminate.
Defined.

(** A logout request never touches the users table, and it ends no
    session but the one of the request itself. *)
Theorem logout_leaves_other_sessions
    (fault : option string) (fresh : string) (app : App)
    (cookie : option string) (token : string) :
  token <> req_sessionID (app_sessions app) cookie fresh ->
  let app' := fst (logout_request fault fresh app cookie) in
  app_db app' = app_db app
  /\ app_sessions app' !! token = app_sessions app !! token
  /\ resolve (app_sessions app') (Some token) =
       resolve (app_sessions app) (Some token).
Proof.
  intros Hne app'. subst app'.
  destruct (logout_request_cases fault fresh app cookie) as [Hdb [Hs | Hs]];
    rewrite Hdb; unfold resolve, session_lookup; rewrite Hs;
    [done |].
  by rewrite lookup_delete_ne.
Qed.

Lemma logout_leaves_other_sessions_witness :
  let app0 := fst (login_request demo_compare None "tok2" session_app None
                     alice_body) in
  let app' := fst (logout_request None "tok3" app0 (Some "tok2")) in
  "tok1" <> "tok2"
  /\ app_db app' = app_db app0
  /\ app_sessions app' !! "tok1" = app_sessions app0 !! "tok1"
  /\ resolve (app_sessions app') (Some "tok1") =
       resolve (app_sessions app0) (Some "tok1").
Proof.
  intros app0 app'. split; [discriminate |].
  apply (logout_leaves_other_sessions None "tok3" app0 (Some "tok2") "tok1").
  vm_compute. discriminate.
Defined.

(** After a logout in which destroy reported no error, the cookie the
    request carried no longer passes [requireLogin]: a guarded route answers
    it with the redirect to the login page. *)
Theorem logout_then_guard_denies (fresh : string) (app : App)
    (cookie : option string) :
  guarded_request (fst (logout_request None fresh app cookie)) cookie =
    Send (Redirect "/login").
Proof.
  unfold guarded_request. simpl.
  pose proof (requireLogin_locals_user
                (Some (req_session
                         (delete (req_sessionID (app_sessions app) cookie fresh)
                                 (app_sessions app))
                         cookie))) as Hg.
  pose proof (resolve_after_delete fresh (app_sessions app) cookie) as Hr.
  rewrite resolve_req_session in Hr.
  unfold locals_user, requireLogin, logged_in in *. by rewrite Hr in *.
Qed.

(** ** States the application can reach *)

Section Reachable.

Variable bcrypt_hash : Field -> nat -> string -> Result string.
Variable bcrypt_compare : Field -> string -> Result bool.

Lemma sessions_valid_step app req :
  sessions_valid app ->
  sessions_valid (auth_step bcrypt_hash bcrypt_compare app req).
Proof.
  intros Hs.
  destruct req as [salt fault body | fault fresh cookie body | fault fresh cookie];
    simpl.
  - (* the table only grows *)
    unfold register_request.
    destruct (post_register_cases bcrypt_hash salt fault (app_db app) body)
      as [Hsame | (name & h & _ & _ & Hnew)];
      destruct (post_register _ _ _ _ _) as [db' out]; simpl in *; subst db';
      intros token s uid Hl Hid;
      destruct (Hs token s uid Hl Hid) as (u & Hin & Hu); exists u;
      (split; [| done]); [done |].
    simpl. apply elem_of_app. by left.
  - (* a new session names the row the login found *)
    destruct (login_request_cases bcrypt_compare fault fresh app cookie body)
      as [-> | (u & Hin & ->)]; [done |].
    intros token s uid Hl Hid. simpl in *.
    destruct (decide (req_sessionID (app_sessions app) cookie fresh = token))
      as [<- | Hne].
    + rewrite lookup_insert_eq in Hl. inversion Hl; subst s.
      inversion Hid; subst uid. by exists u.
    + rewrite lookup_insert_ne in Hl by done. by apply (Hs token s).
  - (* sessions only disappear *)
    destruct (logout_request_cases fault fresh app cookie) as [Hdb [Hst | Hst]];
      unfold sessions_valid; rewrite Hdb, Hst; [done |].
    intros token s uid Hl Hid.
    apply lookup_delete_Some in Hl as [_ Hl]. by apply (Hs token s).
Qed.

Lemma sessions_valid_run reqs app :
  sessions_valid app ->
  sessions_valid (auth_run bcrypt_hash bcrypt_compare reqs app).
Proof.
  revert app. induction reqs as [| req reqs IH]; intros app Hs; [done |].
  simpl. apply IH. by apply sessions_valid_step.
Qed.

End Reachable.

(** Whatever sequence of register, login and logout requests the
    application has served since start-up, with whatever hasher and store
    behaviour, every stored session that carries a user id carries the id
    of a row of the users table. *)
Theorem sessions_name_existing_users
    (bcrypt_hash : Field -> nat -> string -> Result string)
    (bcrypt_compare : Field -> string -> Result bool)
    (reqs : list AuthRequest) :
  sessions_valid (auth_run bcrypt_hash bcrypt_compare reqs empty_app).
Proof.
  apply sessions_valid_run.
  intros token s uid Hl. simpl in Hl. by rewrite lookup_empty in Hl.
Qed.

(** ** The guard and the Session Manager *)

(** Every id a stored session carries is the id of a user, hence not 0. *)
Lemma stored_ids_nonzero app token s uid :
  ids_positive (app_db app) -> sessions_valid app ->
  app_sessions app !! token = Some s -> userId s = Some uid -> uid <> 0.
Proof.
  intros [_ Hrows] Hvalid Hl Hid.
  destruct (Hvalid token s uid Hl Hid) as (u & Hin & <-).
  rewrite Forall_forall in Hrows. specialize (Hrows u Hin). lia.
Qed.

(** Where the stored ids are ids of users, the truthiness test of
    [requireLogin] and the lookup of the Session Manager agree. *)
Lemma guard_agrees_with_resolve app cookie :
  ids_positive (app_db app) -> sessions_valid app ->
  match resolve (app_sessions app) cookie with
  | Some uid =>
      guarded_request app cookie = Next
      /\ userId (req_session (app_sessions app) cookie) = Some uid
  | None => guarded_request app cookie = Send (Redirect "/login")
  end.
Proof.
  intros Hpos Hvalid.
  unfold resolve, guarded_request, req_session, requireLogin, logged_in.
  destruct (session_lookup (app_sessions app) cookie) as [s |] eqn:Hs;
    simpl; [| done].
  destruct cookie as [token |]; [| discriminate Hs]. simpl in Hs.
  destruct (userId s) as [uid |] eqn:Hid; simpl; [| done].
  pose proof (stored_ids_nonzero app token s uid Hpos Hvalid Hs Hid) as Hnz.
  by destruct (Z.eqb_spec uid 0).
Qed.

Lemma ids_positive_run
    (bcrypt_hash : Field -> nat -> string -> Result string)
    (bcrypt_compare : Field -> string -> Result bool)
    reqs app :
  ids_positive (app_db app) ->
  ids_positive (app_db (auth_run bcrypt_hash bcrypt_compare reqs app)).
Proof.
  revert app. induction reqs as [| req reqs IH]; intros app Hpos; [done |].
  simpl. apply IH.
  destruct req as [salt fault body | fault fresh cookie body | fault fresh cookie];
    simpl.
  - unfold register_request.
    pose proof (ids_positive_register bcrypt_hash salt fault _ body Hpos).
    by destruct (post_register _ _ _ _ _).
  - by destruct (login_request_cases bcrypt_compare fault fresh app cookie body)
      as [-> | (u & _ & ->)].
  - by destruct (logout_request_cases fault fresh app cookie) as [-> _].
Qed.

(** C9: in every state the application reaches from start-up by register,
    login and logout requests, and for every session cookie, the absent one
    included, [requireLogin] lets the request through (with that user id in
    [req.session.userId]) exactly when the Session Manager's [resolve]
    yields a user id for the cookie, and in every other case answers with
    the redirect to the login page. *)
Theorem requireLogin_resolve
    (bcrypt_hash : Field -> nat -> string -> Result string)
    (bcrypt_compare : Field -> string -> Result bool)
    (reqs : list AuthRequest) (cookie : option string) :
  let app := auth_run bcrypt_hash bcrypt_compare reqs empty_app in
  match resolve (app_sessions app) cookie with
  | Some uid =>
      guarded_request app cookie = Next
      /\ userId (req_session (app_sessions app) cookie) = Some uid
  | None => guarded_request app cookie = Send (Redirect "/login")
  end.
Proof.
  intros app. apply guard_agrees_with_resolve.
  - apply ids_positive_run, ids_positive_empty.
  - apply sessions_valid_run.
    intros token s uid Hl. simpl in Hl. by rewrite lookup_empty in Hl.
Qed.

(** Both sides of the agreement occur: alice's cookie passes after her
    login, and no longer after her logout. *)
Example guard_after_login_and_logout :
  let reqs := [Register demo_salt None alice_body;
               Login None "tok1" None alice_body] in
  let app := auth_run demo_hash demo_compare reqs empty_app in
  let app' := auth_run demo_hash demo_compare
                (reqs ++ [Logout None "tok2" (Some "tok1")]) empty_app in
  resolve (app_sessions app) (Some "tok1") = Some 1
  /\ guarded_request app (Some "tok1") = Next
  /\ resolve (app_sessions app') (Some "tok1") = None
  /\ guarded_request app' (Some "tok1") = Send (Redirect "/login").
Proof. vm_compute. repeat split. Qed.

(** * Properties of the blog routes *)

(** ** Ordering *)

Global Instance newer_first_transitive {A : Type} (key : A -> Z) :
  Transitive (newer_first key).
Proof. intros a b c. unfold newer_first. lia. Qed.

Global Instance newer_first_total {A : Type} (key : A -> Z) :
  Total (newer_first key).
Proof. intros a b. unfold newer_first. lia. Qed.

Lemma order_by_desc_perm {A : Type} (key : A -> Z) (rows : list A) :
  order_by_desc key rows ≡ₚ rows.
Proof. apply merge_sort_Permutation. Qed.

Lemma order_by_desc_sorted {A : Type} (key : A -> Z) (rows : list A) :
  StronglySorted (newer_first key) (order_by_desc key rows).
Proof. apply StronglySorted_merge_sort; apply _. Qed.

(** A row whose key is larger than every other key comes first. *)
Lemma order_by_desc_head {A : Type} (key : A -> Z) (rows : list A) (x : A) :
  Forall (fun y => key y < key x) rows ->
  exists rest, order_by_desc key (rows ++ [x]) = x :: rest
               /\ rest ≡ₚ rows.
Proof.
  intros Hlt.
  pose proof (order_by_desc_perm key (rows ++ [x])) as Hperm.
  pose proof (order_by_desc_sorted key (rows ++ [x])) as Hsorted.
  destruct (order_by_desc key (rows ++ [x])) as [| h t] eqn:E.
  { apply Permutation_nil_l in Hperm. by destruct rows. }
  assert (Hx : x ∈ h :: t).
  { rewrite Hperm. apply elem_of_app. right. by apply list_elem_of_singleton. }
  assert (Hh : h ∈ rows ++ [x]) by (rewrite <- Hperm; by left).
  apply StronglySorted_inv in Hsorted as [Hst Hall].
  assert (h = x) as ->.
  { apply elem_of_app in Hh as [Hh | Hh%list_elem_of_singleton]; [| done].
    rewrite Forall_forall in Hlt, Hall.
    apply elem_of_cons in Hx as [-> | Hx]; [done |].
    specialize (Hlt h Hh). specialize (Hall x Hx).
    unfold newer_first in Hall. lia. }
  exists t. split; [done |].
  apply (Permutation_cons_inv (a := x)).
  rewrite Hperm. by rewrite Permutation_app_comm.
Qed.

Lemma NoDup_map_inj {A : Type} (key : A -> Z) (l : list A) (a b : A) :
  NoDup (map key l) -> a ∈ l -> b ∈ l -> key a = key b -> a = b.
Proof.
  induction l as [| y l IH]; simpl; [by intros _ ?%elem_of_nil |].
  intros [Hy Hl]%NoDup_cons [-> | Ha]%elem_of_cons [-> | Hb]%elem_of_cons Hk;
    try done.
  - destruct Hy. rewrite Hk. by apply (list_elem_of_fmap_2 key).
  - destruct Hy. rewrite <- Hk. by apply (list_elem_of_fmap_2 key).
  - by apply IH.
Qed.

(** Among rows with distinct keys, a row whose key is larger than every
    other key is put in front and the order of the others is unchanged. *)
Lemma order_by_desc_snoc {A : Type} (key : A -> Z) (rows : list A) (x : A) :
  (forall a b, a ∈ rows -> b ∈ rows -> key a = key b -> a = b) ->
  Forall (fun y => key y < key x) rows ->
  order_by_desc key (rows ++ [x]) = x :: order_by_desc key rows.
Proof.
  intros Hinj Hlt.
  destruct (order_by_desc_head key rows x Hlt) as (rest & Hhead & Hrest).
  rewrite Hhead. f_equal.
  pose proof (order_by_desc_sorted key (rows ++ [x])) as Hsorted.
  rewrite Hhead in Hsorted. apply StronglySorted_inv in Hsorted as [Hs _].
  apply (StronglySorted_unique_strong (newer_first key));
    [| done | apply order_by_desc_sorted
     | by rewrite Hrest, order_by_desc_perm].
  intros a b Ha Hb Hab Hba. apply Hinj.
  - by rewrite <- Hrest.
  - by rewrite <- (order_by_desc_perm key rows).
  - unfold newer_first in *. lia.
Qed.

Section BlogFacts.

Context {Cell : Type} `{EqDecision Cell}.
Variable affinity : string -> Cell.
Variable rowid : Cell -> option Z.

Lemma fold_max_ge {A : Type} (key : A -> Z) (l : list A) (x : A) :
  x ∈ l -> key x <= fold_right (fun p m => Z.max (key p) m) 0 l.
Proof.
  induction l as [| y l IH]; [by intros ?%elem_of_nil |].
  intros [-> | Hin]%elem_of_cons; simpl; [lia |].
  specialize (IH Hin). lia.
Qed.

Lemma post_id_lt_next (blog : Blog Cell) p :
  p ∈ posts blog -> post_id p < next_post_id blog.
Proof.
  intros Hin%(fold_max_ge post_id). unfold next_post_id. lia.
Qed.

Lemma comment_id_lt_next (blog : Blog Cell) c :
  c ∈ comments blog -> comment_id c < next_comment_id blog.
Proof.
  intros Hin%(fold_max_ge comment_id). unfold next_comment_id. lia.
Qed.

Lemma find_app_new {A : Type} (f : A -> bool) (l : list A) (x : A) :
  Forall (fun y => f y = false) l -> f x = true ->
  List.find f (l ++ [x]) = Some x.
Proof.
  intros Hl Hx. induction Hl as [| y l Hy _ IH]; simpl.
  - by rewrite Hx.
  - by rewrite Hy.
Qed.

Lemma find_filter_negb {A : Type} (f : A -> bool) (l : list A) :
  List.find f (List.filter (fun y => negb (f y)) l) = None.
Proof.
  induction l as [| y l IH]; simpl; [done |].
  destruct (f y) eqn:Hy; simpl; [done | by rewrite Hy].
Qed.

Lemma find_map_same_key {A : Type} (f : A -> bool) (g : A -> A) (l : list A) :
  (forall y, f (g y) = f y) ->
  List.find f (map g l) = g <$> List.find f l.
Proof.
  intros Hg. induction l as [| y l IH]; simpl; [done |].
  rewrite Hg. by destruct (f y).
Qed.

Lemma id_matches_inj id z z' :
  id_matches affinity rowid id z = true ->
  id_matches affinity rowid id z' = true -> z = z'.
Proof.
  unfold id_matches.
  intros H1%bool_decide_eq_true H2%bool_decide_eq_true. congruence.
Qed.

(** X8: a post created through POST /new-post can be read back.  With
    title and content present and the store working, the handler redirects
    to the home page, and GET /post/:id for the id the post was given
    renders exactly that title and content (with the timestamp of the
    insertion). *)
Theorem new_post_then_view (user : option Z) (env env' : BlogEnv)
    (blog : Blog Cell)
    (title content id : string) :
  fault1 env = None -> fault1 env' = None -> fault2 env' = None ->
  rowid (affinity id) = Some (next_post_id blog) ->
  let created := post_new_post env blog (Some title) (Some content) in
  snd created = blog_send (Plain (Redirect "/"))
  /\ exists rows,
       get_post affinity rowid user env' (fst created) id =
         blog_send (RenderPost user
                      (mkPost (next_post_id blog) title content
                              (current_timestamp env))
                      rows).
Proof.
  intros Hf Hf1 Hf2 Hid created. subst created.
  unfold post_new_post, insert_post. rewrite Hf. simpl.
  split; [done |].
  unfold get_post, select_post, select_comments. rewrite Hf1, Hf2. simpl.
  rewrite find_app_new.
  - by eexists.
  - apply Forall_forall. intros p Hp%post_id_lt_next.
    unfold id_matches. apply bool_decide_eq_false. rewrite Hid.
    intros [=]. lia.
  - unfold id_matches. simpl. by apply bool_decide_eq_true.
Qed.

(** X9: with the store working, the home page lists every post of the
    table exactly once, larger ids first. *)
Theorem home_lists_posts_newest_first (user : option Z) (env : BlogEnv)
    (blog : Blog Cell) :
  fault1 env = None ->
  exists rows,
    get_home user env blog = blog_send (RenderHome user rows)
    /\ rows ≡ₚ posts blog
    /\ StronglySorted (fun a b => post_id b <= post_id a) rows.
Proof.
  intros Hf. exists (order_by_desc post_id (posts blog)).
  unfold get_home, select_posts. rewrite Hf.
  split; [done |]. split.
  - apply order_by_desc_perm.
  - apply (order_by_desc_sorted post_id).
Qed.

Lemma get_edit_post_without_user user user' env (blog : Blog Cell) id :
  outcome_without_user (get_edit_post affinity rowid user env blog id) =
    outcome_without_user (get_edit_post affinity rowid user' env blog id).
Proof.
  unfold get_edit_post. by destruct (select_post _ _ _ _ _) as [[row |] | e].
Qed.

Lemma get_home_without_user user user' env (blog : Blog Cell) :
  outcome_without_user (get_home user env blog) =
    outcome_without_user (get_home user' env blog).
Proof. unfold get_home. by destruct (select_posts _ _) as [rows | e]. Qed.

Lemma get_post_without_user user user' env (blog : Blog Cell) id :
  outcome_without_user (get_post affinity rowid user env blog id) =
    outcome_without_user (get_post affinity rowid user' env blog id).
Proof.
  unfold get_post. destruct (select_post _ _ _ _ _) as [[row |] | e]; try done.
  by destruct (select_comments _ _ _ _) as [rows | e].
Qed.

(** X10: the route table guards exactly GET /new-post and
    POST /post/delete/:id.  Without a logged-in session these two answer
    with the redirect to the login page and leave the tables alone.  On
    every other route the session decides nothing but the [user] local a
    rendered view receives: the tables afterwards, the console and the
    response apart from that local are the same for any two sessions, and
    the writing routes (creating a post, editing a post, commenting), which
    render nothing, do exactly the same whether or not there is a
    session. *)
Theorem only_two_routes_guarded (session : option Session) (env : BlogEnv)
    (blog : Blog Cell) (req : BlogRequest) :
  logged_in session = false ->
  (needs_login req = true ->
   blog_request affinity rowid session env blog req =
     (blog, blog_send (Plain (Redirect "/login"))))
  /\ (needs_login req = false ->
      forall session',
        fst (blog_request affinity rowid session env blog req) =
          fst (blog_request affinity rowid session' env blog req)
        /\ outcome_without_user
             (snd (blog_request affinity rowid session env blog req)) =
           outcome_without_user
             (snd (blog_request affinity rowid session' env blog req))
        /\ (writes_unguarded req = true ->
            blog_request affinity rowid session env blog req =
              blog_request affinity rowid session' env blog req)).
Proof.
  intros Hanon. split; intros Hreq.
  - destruct req; try discriminate Hreq; simpl;
      unfold requireLogin; by rewrite Hanon.
  - intros session'.
    destruct req; try discriminate Hreq; simpl;
      (split; [done |]); (split; [| done]); try done.
    + apply get_edit_post_without_user.
    + apply get_home_without_user.
    + apply get_post_without_user.
Qed.

(** X11: a logged-in delete removes the post and nothing else.  With the
    store working, POST /post/delete/:id redirects to the home page; the
    page of the post answers 404 afterwards; every post with another id is
    still in the table; the comments table, the orphaned comments of the
    post included, and the AUTOINCREMENT counter are as before. *)
Theorem delete_removes_only_that_post (session : option Session)
    (user : option Z) (env env' : BlogEnv) (blog : Blog Cell) (id : string) :
  logged_in session = true ->
  fault1 env = None -> fault1 env' = None ->
  let deleted := blog_request affinity rowid session env blog
                   (PostDeletePost id) in
  snd deleted = blog_send (Plain (Redirect "/"))
  /\ get_post affinity rowid user env' (fst deleted) id = blog_send post_not_found
  /\ (forall p, p ∈ posts blog ->
        id_matches affinity rowid id (post_id p) = false ->
        p ∈ posts (fst deleted))
  /\ (forall p, p ∈ posts (fst deleted) -> p ∈ posts blog)
  /\ comments (fst deleted) = comments blog
  /\ posts_sequence (fst deleted) = posts_sequence blog.
Proof.
  intros Hin Hf Hf' deleted. subst deleted. simpl.
  unfold requireLogin. rewrite Hin.
  unfold post_delete_post, delete_post. rewrite Hf. simpl.
  split; [done |]. split; [| split; [| split; [| done]]].
  - unfold get_post, select_post. rewrite Hf'. simpl.
    by rewrite (find_filter_negb (fun p => id_matches affinity rowid id (post_id p))).
  - intros p Hp Hm. apply list_elem_of_In, filter_In.
    split; [by apply list_elem_of_In | by rewrite Hm].
  - intros p Hp%list_elem_of_In%filter_In. apply list_elem_of_In. tauto.
Qed.

(** Splits a request by route, closing the routes that leave the tables
    alone and passing the guard where there is one. *)
Ltac route_cases session :=
  simpl; try done;
  try (progress unfold requireLogin; destruct (logged_in session);
       simpl; try done).

(** X12: post ids are never handed out again.  Once an id is no longer in
    the posts table (or was skipped) while the AUTOINCREMENT counter has
    passed it, no sequence of blog requests, deletions included, brings a
    post with that id into the table. *)
Theorem post_ids_never_reused
    (reqs : list (option Session * BlogEnv * BlogRequest))
    (blog : Blog Cell) (z : Z) :
  post_ids_bounded blog ->
  z <= posts_sequence blog ->
  z ∉ map post_id (posts blog) ->
  z ∉ map post_id (posts (blog_run affinity rowid reqs blog)).
Proof.
  revert blog. induction reqs as [| [[session env] req] reqs IH];
    intros blog Hb Hz Hnotin; [by simpl |].
  simpl. apply IH; clear IH.
  - (* bounded *)
    unfold post_ids_bounded in *.
    destruct req; route_cases session.
    + unfold post_edit_post, update_post.
      destruct (fault1 env); [by simpl |].
      destruct (existsb _ _); [| by simpl].
      destruct title as [t |]; [| by simpl]. destruct content as [c |]; [| by simpl].
      simpl. apply Forall_forall. intros p (q & -> & Hq)%list_elem_of_fmap.
      rewrite Forall_forall in Hb. specialize (Hb q Hq).
      by destruct (id_matches _ _ _ _).
    + unfold post_new_post, insert_post.
      destruct (fault1 env); [by simpl |].
      destruct title as [t |]; [| by simpl]. destruct content as [c |]; [| by simpl].
      simpl. apply Forall_app. split; [| by repeat constructor].
      eapply Forall_impl; [exact Hb |]. intros p Hp. simpl in Hp.
      unfold next_post_id. lia.
    + unfold post_delete_post, delete_post.
      destruct (fault1 env); [by simpl |]. simpl.
      apply Forall_forall. intros p Hp%list_elem_of_In%filter_In.
      rewrite Forall_forall in Hb. apply Hb, list_elem_of_In. tauto.
    + unfold post_comment, insert_comment.
      destruct (fault1 env); [by simpl |].
      destruct author; [| by simpl]. destruct content; [| by simpl].
      by destruct rating; simpl.
  - (* the counter never goes back *)
    destruct req; route_cases session.
    + unfold post_edit_post, update_post.
      destruct (fault1 env); [by simpl |].
      destruct (existsb _ _); [| by simpl].
      destruct title as [t |]; [| by simpl]. by destruct content as [c |]; simpl.
    + unfold post_new_post, insert_post.
      destruct (fault1 env); [by simpl |].
      destruct title as [t |]; [| by simpl]. destruct content as [c |]; [| by simpl].
      simpl. unfold next_post_id. lia.
    + unfold post_delete_post, delete_post. by destruct (fault1 env); simpl.
    + unfold post_comment, insert_comment.
      destruct (fault1 env); [by simpl |].
      destruct author; [| by simpl]. destruct content; [| by simpl].
      by destruct rating; simpl.
  - (* the id stays out *)
    destruct req; route_cases session.
    + unfold post_edit_post, update_post.
      destruct (fault1 env); [by simpl |].
      destruct (existsb _ _); [| by simpl].
      destruct title as [t |]; [| by simpl]. destruct content as [c |]; [| by simpl].
      simpl. intros (p & Hp & (q & -> & Hq)%list_elem_of_fmap)%list_elem_of_fmap.
      apply Hnotin. apply list_elem_of_fmap. exists q. split; [| by simpl].
      rewrite Hp. by destruct (id_matches _ _ _ _).
    + unfold post_new_post, insert_post.
      destruct (fault1 env); [by simpl |].
      destruct title as [t |]; [| by simpl]. destruct content as [c |]; [| by simpl].
      simpl. rewrite map_app. intros [Hold | Hnew]%elem_of_app; [by simpl |].
      apply list_elem_of_singleton in Hnew. simpl in Hnew.
      unfold next_post_id in Hnew. lia.
    + unfold post_delete_post, delete_post.
      destruct (fault1 env); [by simpl |]. simpl.
      intros (p & Hp & Hin%list_elem_of_In%filter_In)%list_elem_of_fmap.
      apply Hnotin. apply list_elem_of_fmap. exists p.
      split; [done | apply list_elem_of_In; tauto].
    + unfold post_comment, insert_comment.
      destruct (fault1 env); [by simpl |].
      destruct author; [| by simpl]. destruct content; [| by simpl].
      by destruct rating; simpl.
Qed.

(** X13: an edit can be read back and touches one post.  When the post
    exists, title and content are present and the store works,
    POST /post/edit/:id redirects to the page of the post, which then shows
    the new title and content under the old id and creation time, with the
    same comments as before; the ids of the table, in order, and the
    comments are unchanged. *)
Theorem edit_post_then_view (user : option Z) (env env' : BlogEnv)
    (blog : Blog Cell)
    (id title content : string) (old : Post) :
  fault1 env = None -> fault1 env' = None -> fault2 env' = None ->
  select_post affinity rowid None blog id = Ok (Some old) ->
  let edited := post_edit_post affinity rowid env blog id
                  (Some title) (Some content) in
  snd edited = blog_send (Plain (Redirect ("/post/" +:+ id)))
  /\ (exists rows,
        get_post affinity rowid user env' blog id =
          blog_send (RenderPost user old rows)
        /\ get_post affinity rowid user env' (fst edited) id =
             blog_send (RenderPost user
                          (mkPost (post_id old) title content
                                  (post_created_at old))
                          rows))
  /\ map post_id (posts (fst edited)) = map post_id (posts blog)
  /\ comments (fst edited) = comments blog.
Proof.
  intros Hf Hf1 Hf2 Hold edited. subst edited.
  unfold select_post in Hold. inversion Hold as [Hfind]. clear Hold.
  assert (Hex : existsb (fun p => id_matches affinity rowid id (post_id p))
                  (posts blog) = true).
  { apply existsb_exists. exists old. by apply find_some in Hfind. }
  unfold post_edit_post, update_post. rewrite Hf, Hex. simpl.
  split; [done |]. split; [| split; [| done]].
  - eexists. unfold get_post, select_post, select_comments.
    rewrite Hf1, Hf2. simpl. rewrite Hfind. split; [reflexivity |].
    rewrite (find_map_same_key
               (fun p => id_matches affinity rowid id (post_id p))).
    + rewrite Hfind. simpl.
      apply find_some in Hfind as [_ ->]. reflexivity.
    + intros p.
      destruct (id_matches affinity rowid id (post_id p)) eqn:E; simpl;
        by rewrite ?E.
  - rewrite map_map. apply map_ext. intros p.
    by destruct (id_matches affinity rowid id (post_id p)).
Qed.

(** X14: editing a post that does not exist.  With the store working the
    tables are left as they are, whatever title and content were sent (even
    none), and the handler still redirects to the page of the post, which
    answers 404. *)
Theorem edit_missing_post (user : option Z) (env env' : BlogEnv)
    (blog : Blog Cell)
    (id : string) (title content : Field) :
  fault1 env = None -> fault1 env' = None ->
  select_post affinity rowid None blog id = Ok None ->
  post_edit_post affinity rowid env blog id title content =
    (blog, blog_send (Plain (Redirect ("/post/" +:+ id))))
  /\ get_post affinity rowid user env' blog id = blog_send post_not_found.
Proof.
  intros Hf Hf' Hnone. unfold select_post in Hnone.
  inversion Hnone as [Hfind]. clear Hnone.
  assert (Hex : existsb (fun p => id_matches affinity rowid id (post_id p))
                  (posts blog) = false).
  { apply not_true_is_false. intros (p & Hin & Hp)%existsb_exists.
    by rewrite (find_none _ _ Hfind p Hin) in Hp. }
  unfold post_edit_post, update_post, get_post, select_post.
  by rewrite Hf, Hf', Hex, Hfind.
Qed.

(** Every blog request keeps the comment ids distinct: the only route that
    writes a comment gives it an id above all others. *)
Lemma comment_ids_unique_step (session : option Session) (env : BlogEnv)
    (blog : Blog Cell) (req : BlogRequest) :
  comment_ids_unique blog ->
  comment_ids_unique (fst (blog_request affinity rowid session env blog req)).
Proof.
  intros Hu. unfold comment_ids_unique in *.
  destruct req; route_cases session.
  - unfold post_edit_post, update_post.
    destruct (fault1 env); [by simpl |].
    destruct (existsb _ _); [| by simpl].
    destruct title as [t |]; [| by simpl]. by destruct content as [c |]; simpl.
  - unfold post_new_post, insert_post.
    destruct (fault1 env); [by simpl |].
    destruct title as [t |]; [| by simpl]. by destruct content as [c |]; simpl.
  - unfold post_delete_post, delete_post. by destruct (fault1 env); simpl.
  - unfold post_comment, insert_comment.
    destruct (fault1 env); [by simpl |].
    destruct author; [| by simpl]. destruct content; [| by simpl].
    destruct rating; [| by simpl]. simpl. rewrite map_app.
    apply NoDup_app. split; [done |]. split; [| apply NoDup_singleton].
    intros z (c & -> & Hc%comment_id_lt_next)%list_elem_of_fmap
      Hz%list_elem_of_singleton.
    simpl in Hz. lia.
Qed.

Lemma comment_ids_unique_run
    (reqs : list (option Session * BlogEnv * BlogRequest)) (blog : Blog Cell) :
  comment_ids_unique blog ->
  comment_ids_unique (blog_run affinity rowid reqs blog).
Proof.
  revert blog. induction reqs as [| [[session env] req] reqs IH];
    intros blog Hu; [done |].
  simpl. apply IH. by apply comment_ids_unique_step.
Qed.

(** X15: a comment can be read back, newest first.  In a comments table
    with distinct ids, with author, content and rating present and the
    store working, POST /post/:id/comment redirects to the page of the post
    and leaves the posts alone; if the post exists, its page then lists the
    new comment first, followed by exactly the comments it listed before,
    in the order it listed them. *)
Theorem comment_then_view (user : option Z) (env env' : BlogEnv)
    (blog : Blog Cell)
    (id author content rating : string) (post : Post) :
  comment_ids_unique blog ->
  fault1 env = None -> fault1 env' = None -> fault2 env' = None ->
  select_post affinity rowid None blog id = Ok (Some post) ->
  let commented := post_comment affinity env blog id
                     (Some author) (Some content) (Some rating) in
  let new := mkComment (next_comment_id blog) (affinity id) author content
               (affinity rating) (current_timestamp env) in
  snd commented = blog_send (Plain (Redirect ("/post/" +:+ id)))
  /\ posts (fst commented) = posts blog
  /\ exists before,
       get_post affinity rowid user env' blog id =
         blog_send (RenderPost user post before)
       /\ get_post affinity rowid user env' (fst commented) id =
            blog_send (RenderPost user post (new :: before)).
Proof.
  intros Hu Hf Hf1 Hf2 Hpost commented new. subst commented.
  unfold select_post in Hpost. inversion Hpost as [Hfind]. clear Hpost.
  unfold post_comment, insert_comment. rewrite Hf. simpl.
  split; [done |]. split; [done |].
  unfold get_post, select_post, select_comments. rewrite Hf1, Hf2. simpl.
  rewrite Hfind.
  rewrite List.filter_app. simpl. rewrite bool_decide_eq_true_2 by done.
  set (mine := List.filter
                 (fun c => bool_decide (comment_post_id c = affinity id))
                 (comments blog)).
  assert (Hmine : forall c, c ∈ mine -> c ∈ comments blog).
  { intros c Hc%list_elem_of_In%filter_In. apply list_elem_of_In. tauto. }
  exists (order_by_desc comment_id mine). split; [done |].
  fold new. rewrite (order_by_desc_snoc comment_id mine new); [done | |].
  - intros a b Ha Hb. apply (NoDup_map_inj comment_id (comments blog)); auto.
  - apply Forall_forall. intros c Hc. by apply comment_id_lt_next, Hmine.
Qed.

(** X16: a failing store leaves a blog request unanswered.  When the first
    database call of a route fails, the error message is written to the
    console, no response is sent and the tables are untouched; the same
    happens to GET /post/:id when the post is found and the query for its
    comments fails. *)
Theorem blog_store_failure (session : option Session) (env : BlogEnv)
    (blog : Blog Cell) (req : BlogRequest) (e : string) :
  req <> GetNewPost ->
  (needs_login req = true -> logged_in session = true) ->
  (fault1 env = Some e ->
   blog_request affinity rowid session env blog req = (blog, blog_logged e))
  /\ (forall id post,
        req = GetPost id ->
        select_post affinity rowid (fault1 env) blog id = Ok (Some post) ->
        fault2 env = Some e ->
        blog_request affinity rowid session env blog req =
          (blog, blog_logged e)).
Proof.
  intros Hform Hguard. split.
  - intros Hf.
    destruct req; simpl in *; try done;
      unfold get_edit_post, post_edit_post, get_home, get_post,
        post_new_post, post_comment, select_post, select_posts,
        update_post, insert_post, insert_comment;
      rewrite ?Hf; try done.
    unfold requireLogin. rewrite (Hguard eq_refl).
    unfold post_delete_post, delete_post. by rewrite Hf.
  - intros id post -> Hpost Hf2. simpl.
    unfold get_post, select_comments. by rewrite Hpost, Hf2.
Qed.

End BlogFacts.

(** The two posts of [demo_blog]. *)
Lemma demo_blog_posts :
  posts demo_blog =
    [mkPost 1 "Hello" "First post" "2025-01-01 00:00:00";
     mkPost 2 "Again" "Second post" "2025-01-01 00:00:00"].
Proof. reflexivity. Qed.

Lemma new_post_then_view_witness :
  demo_rowid (demo_affinity "3") = Some (next_post_id demo_blog)
  /\ let created := post_new_post demo_env demo_blog (Some "T") (Some "C") in
     snd created = blog_send (Plain (Redirect "/"))
     /\ exists rows,
          get_post demo_affinity demo_rowid (Some 1) demo_env (fst created) "3" =
            blog_send (RenderPost (Some 1)
                         (mkPost (next_post_id demo_blog) "T" "C"
                                 (current_timestamp demo_env))
                         rows).
Proof.
  split; [reflexivity |].
  apply (new_post_then_view demo_affinity demo_rowid (Some 1) demo_env demo_env
           demo_blog "T" "C" "3"); reflexivity.
Defined.

Lemma home_lists_posts_newest_first_witness :
  fault1 demo_env = None
  /\ exists rows,
       get_home None demo_env demo_blog = blog_send (RenderHome None rows)
       /\ rows ≡ₚ posts demo_blog
       /\ StronglySorted (fun a b => post_id b <= post_id a) rows.
Proof.
  split; [reflexivity |].
  apply (home_lists_posts_newest_first None demo_env demo_blog). reflexivity.
Defined.

Lemma only_two_routes_guarded_witness :
  let anonymous := Some {| userId := Some 0 |} in
  let alice := Some {| userId := Some 1 |} in
  logged_in anonymous = false
  /\ blog_request demo_affinity demo_rowid anonymous
       demo_env demo_blog (PostDeletePost "1") =
       (demo_blog, blog_send (Plain (Redirect "/login")))
  /\ blog_request demo_affinity demo_rowid anonymous
       demo_env demo_blog (PostNewPost (Some "T") (Some "C")) =
     blog_request demo_affinity demo_rowid alice
       demo_env demo_blog (PostNewPost (Some "T") (Some "C"))
  /\ outcome_without_user
       (snd (blog_request demo_affinity demo_rowid anonymous
               demo_env demo_blog GetHome)) =
     outcome_without_user
       (snd (blog_request demo_affinity demo_rowid alice
               demo_env demo_blog GetHome)).
Proof.
  intros anonymous alice.
  split; [reflexivity |]. split; [| split].
  - apply (only_two_routes_guarded demo_affinity demo_rowid
             anonymous demo_env demo_blog (PostDeletePost "1"));
      reflexivity.
  - apply (only_two_routes_guarded demo_affinity demo_rowid
             anonymous demo_env demo_blog
             (PostNewPost (Some "T") (Some "C"))); reflexivity.
  - apply (only_two_routes_guarded demo_affinity demo_rowid
             anonymous demo_env demo_blog GetHome); reflexivity.
Defined.

Lemma delete_removes_only_that_post_witness :
  let session := Some {| userId := Some 1 |} in
  let deleted := blog_request demo_affinity demo_rowid session demo_env
                   demo_blog (PostDeletePost "1") in
  logged_in session = true
  /\ snd deleted = blog_send (Plain (Redirect "/"))
  /\ get_post demo_affinity demo_rowid (Some 1) demo_env (fst deleted) "1" =
       blog_send post_not_found
  /\ comments (fst deleted) = comments demo_blog.
Proof.
  intros session deleted. split; [reflexivity |].
  destruct (delete_removes_only_that_post demo_affinity demo_rowid session
              (Some 1) demo_env demo_env demo_blog "1")
    as (Hout & Hgone & _ & _ & Hcomments & _); try reflexivity.
  split; [exact Hout |]. split; [exact Hgone | exact Hcomments].
Defined.

Lemma post_ids_never_reused_witness :
  let after_delete :=
    fst (blog_request demo_affinity demo_rowid (Some {| userId := Some 1 |})
           demo_env demo_blog (PostDeletePost "2")) in
  let reqs := [(None, demo_env, PostNewPost (Some "T") (Some "C"))] in
  (post_ids_bounded after_delete
   /\ 2 <= posts_sequence after_delete
   /\ 2 ∉ map post_id (posts after_delete))
  /\ 2 ∉ map post_id
           (posts (blog_run demo_affinity demo_rowid reqs after_delete)).
Proof.
  intros after_delete reqs.
  assert (Hb : post_ids_bounded after_delete).
  { unfold post_ids_bounded. vm_compute. repeat constructor. discriminate. }
  assert (Hz : 2 <= posts_sequence after_delete) by (vm_compute; discriminate).
  assert (Hout : 2 ∉ map post_id (posts after_delete)).
  { vm_compute. apply not_elem_of_cons. split; [discriminate |].
    apply not_elem_of_nil. }
  split; [by repeat split |].
  apply (post_ids_never_reused demo_affinity demo_rowid reqs after_delete 2
           Hb Hz Hout).
Defined.

Lemma edit_post_then_view_witness :
  let old := mkPost 1 "Hello" "First post" "2025-01-01 00:00:00" in
  let edited := post_edit_post demo_affinity demo_rowid demo_env demo_blog "1"
                  (Some "Hi") (Some "Edited") in
  select_post demo_affinity demo_rowid None demo_blog "1" = Ok (Some old)
  /\ snd edited = blog_send (Plain (Redirect "/post/1"))
  /\ (exists rows,
        get_post demo_affinity demo_rowid (Some 1) demo_env demo_blog "1" =
          blog_send (RenderPost (Some 1) old rows)
        /\ get_post demo_affinity demo_rowid (Some 1) demo_env (fst edited) "1" =
             blog_send (RenderPost (Some 1)
                          (mkPost 1 "Hi" "Edited" "2025-01-01 00:00:00") rows))
  /\ map post_id (posts (fst edited)) = map post_id (posts demo_blog)
  /\ comments (fst edited) = comments demo_blog.
Proof.
  intros old edited. split; [reflexivity |].
  apply (edit_post_then_view demo_affinity demo_rowid (Some 1) demo_env demo_env
           demo_blog "1" "Hi" "Edited" old); reflexivity.
Defined.

Lemma edit_missing_post_witness :
  select_post demo_affinity demo_rowid None demo_blog "7" = Ok None
  /\ post_edit_post demo_affinity demo_rowid demo_env demo_blog "7" None None =
       (demo_blog, blog_send (Plain (Redirect "/post/7")))
  /\ get_post demo_affinity demo_rowid (Some 1) demo_env demo_blog "7" =
       blog_send post_not_found.
Proof.
  split; [reflexivity |].
  apply (edit_missing_post demo_affinity demo_rowid (Some 1) demo_env demo_env
           demo_blog "7" None None); reflexivity.
Defined.

Lemma comment_then_view_witness :
  let post := mkPost 1 "Hello" "First post" "2025-01-01 00:00:00" in
  let commented := post_comment demo_affinity demo_env demo_blog "1"
                     (Some "dave") (Some "Agreed") (Some "4") in
  let new := mkComment 2 (IntCell 1) "dave" "Agreed" (IntCell 4)
               "2025-01-01 00:00:00" in
  (comment_ids_unique demo_blog
   /\ select_post demo_affinity demo_rowid None demo_blog "1" = Ok (Some post))
  /\ snd commented = blog_send (Plain (Redirect "/post/1"))
  /\ posts (fst commented) = posts demo_blog
  /\ exists before,
       get_post demo_affinity demo_rowid (Some 1) demo_env demo_blog "1" =
         blog_send (RenderPost (Some 1) post before)
       /\ get_post demo_affinity demo_rowid (Some 1) demo_env (fst commented) "1" =
            blog_send (RenderPost (Some 1) post (new :: before)).
Proof.
  intros post commented new.
  assert (Hu : comment_ids_unique demo_blog).
  { unfold comment_ids_unique. vm_compute. apply NoDup_singleton. }
  split; [split; [exact Hu | reflexivity] |].
  apply (comment_then_view demo_affinity demo_rowid (Some 1) demo_env demo_env
           demo_blog "1" "dave" "Agreed" "4" post Hu); reflexivity.
Defined.

Lemma blog_store_failure_witness :
  let env := {| fault1 := Some "SQLITE_BUSY: database is locked";
                fault2 := None;
                current_timestamp := "2025-01-01 00:00:00" |} in
  fault1 env = Some "SQLITE_BUSY: database is locked"
  /\ blog_request demo_affinity demo_rowid None env demo_blog GetHome =
       (demo_blog, blog_logged "SQLITE_BUSY: database is locked").
Proof.
  intros env. split; [reflexivity |].
  apply (blog_store_failure demo_affinity demo_rowid None env demo_blog
           GetHome "SQLITE_BUSY: database is locked");
    [discriminate | discriminate | reflexivity].
Defined.

(** * Properties of the file watcher *)

Lemma debounce_run_app {A : Type} (pending : option A)
    (evs1 evs2 : list (DebounceEvent A)) :
  debounce_run pending (evs1 ++ evs2) =
    (fst (debounce_run (fst (debounce_run pending evs1)) evs2),
     snd (debounce_run pending evs1) ++
     snd (debounce_run (fst (debounce_run pending evs1)) evs2)).
Proof.
  revert pending. induction evs1 as [| ev evs1 IH]; intros pending; simpl.
  - by destruct (debounce_run pending evs2).
  - destruct (debounce_step pending ev) as [pending' out].
    rewrite IH. destruct (debounce_run pending' evs1) as [p1 o1]. simpl.
    by rewrite app_assoc.
Qed.

Lemma debounce_run_calls {A : Type} (pending : option A) (l : list A) (a : A) :
  debounce_run pending (map Call (l ++ [a])) = (Some a, []).
Proof.
  revert pending. induction l as [| b l IH]; intros pending; simpl; [done |].
  by rewrite IH.
Qed.

(** X17: debouncing.  However many calls come in before the timer runs
    out, and whatever was pending before them, the debounced function is
    called exactly once, with the arguments of the last call, and nothing is
    left pending. *)
Theorem debounce_last_call_wins {A : Type} (pending : option A)
    (earlier : list A) (last : A) :
  debounce_run pending (map Call (earlier ++ [last]) ++ [Expire]) =
    (None, [last]).
Proof.
  rewrite debounce_run_app, debounce_run_calls. reflexivity.
Qed.

Lemma watcher_run_app scriptPath pending evs1 evs2 :
  watcher_run scriptPath pending (evs1 ++ evs2) =
    (fst (watcher_run scriptPath (fst (watcher_run scriptPath pending evs1)) evs2),
     snd (watcher_run scriptPath pending evs1) ++
     snd (watcher_run scriptPath (fst (watcher_run scriptPath pending evs1)) evs2)).
Proof.
  revert pending. induction evs1 as [| ev evs1 IH]; intros pending; simpl.
  - by destruct (watcher_run scriptPath pending evs2).
  - destruct (watcher_step scriptPath pending ev) as [pending' out].
    rewrite IH. destruct (watcher_run scriptPath pending' evs1) as [p1 o1].
    simpl. by rewrite app_assoc.
Qed.

(** File events alone start nothing: they only arm the timer. *)
Lemma watcher_run_changes scriptPath pending (burst : list (string * string)) :
  snd (watcher_run scriptPath pending
         (map (fun '(event, path) => Changed event path) burst)) = [].
Proof.
  revert pending. induction burst as [| [event path] burst IH];
    intros pending; simpl; [done |].
  destruct (relevant event); simpl;
    match goal with
    | |- context [watcher_run scriptPath ?p ?evs] =>
        specialize (IH p); destruct (watcher_run scriptPath p evs)
    end; by simpl in *.
Qed.

(** Events the filter drops leave the pending timer as it is. *)
Lemma watcher_run_ignored scriptPath pending (noise : list (string * string)) :
  Forall (fun '(event, _) => relevant event = false) noise ->
  fst (watcher_run scriptPath pending
         (map (fun '(event, path) => Changed event path) noise)) = pending.
Proof.
  induction 1 as [| [event path] noise Hev _ IH]; simpl; [done |].
  rewrite Hev.
  destruct (watcher_run scriptPath pending _) as [p o]. by simpl in *.
Qed.

(** X18: one push per burst of changes.  After any file events, a change
    the filter lets through, and any further events the filter drops, the
    timer running out produces exactly one log line and one PowerShell
    process: the autopush script with a [-Message] that carries the time
    and the path of that last change; nothing was started before, and no
    timer is left pending. *)
Theorem watcher_pushes_once_per_burst (scriptPath : string)
    (pending : option string) (burst noise : list (string * string))
    (event path iso_time : string) :
  relevant event = true ->
  Forall (fun '(ev, _) => relevant ev = false) noise ->
  let msg := "Auto-change detected: " +:+ iso_time +:+ " - " +:+ path in
  let as_events := map (fun '(ev, p) => Changed ev p) in
  watcher_run scriptPath pending
    (as_events burst ++ [Changed event path] ++ as_events noise
     ++ [TimerFired iso_time]) =
    (None,
     [ConsoleLog msg;
      Spawn "powershell"
        ["-ExecutionPolicy"; "Bypass"; "-File"; scriptPath; "-Message"; msg]]).
Proof.
  intros Hev Hnoise msg as_events. subst as_events.
  rewrite watcher_run_app.
  pose proof (watcher_run_changes scriptPath pending burst) as Hquiet.
  destruct (watcher_run scriptPath pending _) as [p0 o0]. simpl in Hquiet.
  subst o0. cbn [fst snd app].
  cbn [watcher_run watcher_step]. rewrite Hev. cbn [debounce_step fst].
  rewrite watcher_run_app.
  pose proof (watcher_run_changes scriptPath (Some path) noise) as Hquiet.
  pose proof (watcher_run_ignored scriptPath (Some path) noise Hnoise) as Hkeep.
  destruct (watcher_run scriptPath (Some path) _) as [p1 o1].
  simpl in Hquiet, Hkeep. subst o1 p1. reflexivity.
Qed.

Lemma watcher_pushes_once_per_burst_witness :
  relevant "change" = true
  /\ Forall (fun '(ev, _) => relevant ev = false) [("ready", "")]
  /\ watcher_run "scripts/autopush.ps1" None
       [Changed "add" "a.txt"; Changed "unlink" "b.txt";
        Changed "change" "views/home.ejs"; Changed "ready" "";
        TimerFired "2025-01-01T00:00:00.000Z"] =
       (None,
        [ConsoleLog
           "Auto-change detected: 2025-01-01T00:00:00.000Z - views/home.ejs";
         Spawn "powershell"
           ["-ExecutionPolicy"; "Bypass"; "-File"; "scripts/autopush.ps1";
            "-Message";
            "Auto-change detected: 2025-01-01T00:00:00.000Z - views/home.ejs"]]).
Proof.
  assert (Hnoise : Forall (fun '(ev, _) => relevant ev = false) [("ready", "")])
    by (by repeat constructor).
  split; [reflexivity |]. split; [exact Hnoise |].
  apply (watcher_pushes_once_per_burst "scripts/autopush.ps1" None
           [("add", "a.txt"); ("unlink", "b.txt")] [("ready", "")]
           "change" "views/home.ejs" "2025-01-01T00:00:00.000Z" eq_refl Hnoise).
Defined.
